(** * The Bolt driver's session layer (neo4j/session.py)

    A shallow embedding of [neo4j/session.py]: the [Driver], [Result],
    [Session], [Transaction] and [Record] classes, over a model of the
    connection they talk to, and the properties the specification states
    about them.

    Python objects that are shared and mutated (results, responses,
    transactions) live in heaps indexed by reference; a method is a
    function from the state before the call to an outcome and the state
    after it. *)

From Stdlib Require Import ZArith List String Ascii Bool Lia.
From stdpp Require Import base list strings.

Set Warnings "-register-all".

Local Open Scope string_scope.
Local Open Scope list_scope.

(** ** Values of the protocol's dynamic type

    Floating point values are left out: no property below looks inside a
    value. *)

Inductive Value : Type :=
| VNull
| VBool (b : bool)
| VInt (z : Z)
| VText (s : string)
| VList (items : list Value)
| VMap (entries : list (string * Value))
| VStruct (tag : Z) (members : list Value).

(** The metadata dictionary of a summary message.  The only entry the
    session layer reads is ["fields"], the list of field names of a
    statement's result; every other entry is carried along untouched. *)
Record Metadata : Type := mkMetadata {
  md_fields : option (list string);
  md_entries : list (string * Value)
}.

(** A Python [str] used as a statement is a sequence of Unicode code
    points; [bytes] is a sequence of integers below 256. *)
Definition Text : Type := list Z.
Definition Bytes : Type := list Z.

Definition text_of_string (s : string) : Text :=
  map (fun a => Z.of_N (N_of_ascii a)) (list_ascii_of_string s).

(** ** Exceptions and outcomes *)

Inductive Exn : Type :=
| AssertionError
| TypeError
| IndexError
| KeyError (key : string)
| AttributeError (name : string)
| ValueError (msg : string)
| UnicodeDecodeError
| ProtocolError
| CypherError (metadata : Metadata).

(** A call returns a value, raises an exception, or never returns because
    it waits on the link for a message that does not come. *)
Inductive Outcome (A : Type) : Type :=
| Returns (a : A)
| Raises (e : Exn)
| Blocks.

Arguments Returns {A} a.
Arguments Raises {A} e.
Arguments Blocks {A}.

Definition obind {A B : Type} (o : Outcome A) (k : A -> Outcome B) : Outcome B :=
  match o with
  | Returns a => k a
  | Raises e => Raises e
  | Blocks => Blocks
  end.

(** ** class Record *)

Record RecordObj : Type := mkRecord {
  __keys__ : option (list string);
  __values__ : list Value
}.

(** The argument of [record[item]]: a string, an integer, or anything
    else. *)
Inductive Item : Type :=
| ItemStr (s : string)
| ItemInt (i : Z)
| ItemOther.

(** What an attribute access on a record can evaluate to: a field value,
    one of the two instance attributes set by [__init__], or a member
    found on the class. *)
Inductive Attr : Type :=
| AttrField (v : Value)
| AttrKeys (ks : option (list string))
| AttrValues (vs : list Value)
| AttrMember (name : string).

(** [list.index]: the position of the first element equal to [item]. *)
Fixpoint list_index (item : string) (l : list string) : option nat :=
  match l with
  | [] => None
  | x :: l' =>
      if String.eqb x item then Some 0
      else option_map S (list_index item l')
  end.

(** [seq[i]] for a list or a tuple: a negative index counts from the end,
    an index outside the sequence raises [IndexError]. *)
Definition sequence_getitem {A : Type} (l : list A) (i : Z) : Outcome A :=
  let n := Z.of_nat (length l) in
  let j := if (i <? 0)%Z then (i + n)%Z else i in
  if ((0 <=? j) && (j <? n))%Z then
    match l !! Z.to_nat j with
    | Some x => Returns x
    | None => Raises IndexError
    end
  else Raises IndexError.

(** [Record.__getattr__], the hook Python calls when ordinary attribute
    lookup finds nothing. *)
Definition Record___getattr__ (self : RecordObj) (item : string) : Outcome Value :=
  match __keys__ self with
  | None => Raises (AttributeError "index")
  | Some keys =>
      match list_index item keys with
      | None => Raises (AttributeError item)
      | Some i => sequence_getitem (__values__ self) (Z.of_nat i)
      end
  end.

(** Ordinary attribute lookup, which runs before [__getattr__]: the
    instance dictionary holds [__keys__] and [__values__]; the class holds
    the methods of its body and what the class statement adds, and
    inherits the attributes of [object]. *)
Definition Record_class_body : list string :=
  [ "__init__"; "__repr__"; "__eq__"; "__ne__"; "__len__"; "__getitem__";
    "__getattr__"; "__module__"; "__doc__"; "__dict__"; "__weakref__";
    "__hash__" ].

Definition object_attributes : list string :=
  [ "__class__"; "__delattr__"; "__dir__"; "__format__"; "__ge__";
    "__getattribute__"; "__gt__"; "__init_subclass__"; "__le__"; "__lt__";
    "__new__"; "__reduce__"; "__reduce_ex__"; "__setattr__"; "__sizeof__";
    "__str__"; "__subclasshook__" ].

Definition string_mem (x : string) (l : list string) : bool :=
  existsb (String.eqb x) l.

Definition ordinary_attribute (self : RecordObj) (name : string) : option Attr :=
  if String.eqb name "__keys__" then Some (AttrKeys (__keys__ self))
  else if String.eqb name "__values__" then Some (AttrValues (__values__ self))
  else if string_mem name Record_class_body || string_mem name object_attributes
       then Some (AttrMember name)
  else None.

(** [getattr(self, name)], also written [self.name]. *)
Definition Record_getattr (self : RecordObj) (name : string) : Outcome Attr :=
  match ordinary_attribute self name with
  | Some a => Returns a
  | None => obind (Record___getattr__ self name) (fun v => Returns (AttrField v))
  end.

(** [Record.__getitem__]. *)
Definition Record___getitem__ (self : RecordObj) (item : Item) : Outcome Attr :=
  match item with
  | ItemStr s => Record_getattr self s
  | ItemInt i =>
      match __keys__ self with
      | None => Raises TypeError
      | Some keys => obind (sequence_getitem keys i) (Record_getattr self)
      end
  | ItemOther => Raises TypeError
  end.

(** [Record.__len__]. *)
Definition Record___len__ (self : RecordObj) : Outcome nat :=
  match __keys__ self with
  | None => Raises (AttributeError "__len__")
  | Some keys => Returns (length keys)
  end.

(** [Record.__repr__]; [repr] is the interpreter's [repr] on values. *)

Section Repr.
Variable repr : Value -> string.

(** The loop [for i, field in enumerate(self.__keys__)], from index [i]. *)
Fixpoint repr_fields (i : nat) (keys : list string) (values : list Value)
  : Outcome (list string) :=
  match keys with
  | [] => Returns []
  | field :: keys' =>
      match values !! i with
      | None => Raises IndexError
      | Some v =>
          obind (repr_fields (S i) keys' values)
                (fun s => Returns ((field +:+ "=" +:+ repr v) :: s))
      end
  end.

Definition Record___repr__ (self : RecordObj) : Outcome string :=
  match __keys__ self with
  | None => Raises TypeError
  | Some keys =>
      obind (repr_fields 0 keys (__values__ self))
            (fun s => Returns ("<Record " +:+ String.concat " " s +:+ ">"))
  end.
End Repr.

(** ** UTF-8, as [bytes.decode("UTF-8")] and [str.encode("UTF-8")] apply it

    The strict decoder: every code point in its shortest form, no
    surrogates, nothing above U+10FFFF. *)

Definition continuation (b : Z) : bool := ((0x80 <=? b) && (b <=? 0xBF))%Z.

Definition surrogate (c : Z) : bool := ((0xD800 <=? c) && (c <=? 0xDFFF))%Z.

Definition scalar_value (c : Z) : bool :=
  ((0 <=? c) && (c <=? 0x10FFFF))%Z && negb (surrogate c).

Fixpoint utf8_decode (bs : Bytes) : option Text :=
  match bs with
  | [] => Some []
  | b0 :: rest =>
      if ((0 <=? b0) && (b0 <? 0x80))%Z then
        option_map (cons b0) (utf8_decode rest)
      else if ((0xC0 <=? b0) && (b0 <=? 0xDF))%Z then
        match rest with
        | b1 :: rest' =>
            let c := ((b0 - 0xC0) * 64 + (b1 - 0x80))%Z in
            if continuation b1 && (0x80 <=? c)%Z
            then option_map (cons c) (utf8_decode rest')
            else None
        | _ => None
        end
      else if ((0xE0 <=? b0) && (b0 <=? 0xEF))%Z then
        match rest with
        | b1 :: b2 :: rest' =>
            let c := ((b0 - 0xE0) * 4096 + (b1 - 0x80) * 64 + (b2 - 0x80))%Z in
            if continuation b1 && continuation b2 && (0x800 <=? c)%Z
               && negb (surrogate c)
            then option_map (cons c) (utf8_decode rest')
            else None
        | _ => None
        end
      else if ((0xF0 <=? b0) && (b0 <=? 0xF7))%Z then
        match rest with
        | b1 :: b2 :: b3 :: rest' =>
            let c := ((b0 - 0xF0) * 262144 + (b1 - 0x80) * 4096
                      + (b2 - 0x80) * 64 + (b3 - 0x80))%Z in
            if continuation b1 && continuation b2 && continuation b3
               && (0x10000 <=? c)%Z && (c <=? 0x10FFFF)%Z
            then option_map (cons c) (utf8_decode rest')
            else None
        | _ => None
        end
      else None
  end.

Definition utf8_encode_point (c : Z) : Bytes :=
  if (c <? 0x80)%Z then [c]
  else if (c <? 0x800)%Z then [0xC0 + c / 64; 0x80 + c mod 64]%Z
  else if (c <? 0x10000)%Z then
    [0xE0 + c / 4096; 0x80 + (c / 64) mod 64; 0x80 + c mod 64]%Z
  else
    [0xF0 + c / 262144; 0x80 + (c / 4096) mod 64; 0x80 + (c / 64) mod 64;
     0x80 + c mod 64]%Z.

Definition utf8_encode (t : Text) : Bytes := concat (map utf8_encode_point t).

(** ** Messages *)

Definition Parameters : Type := list (string * Value).

(** Requests, by signature: [RUN] with its two fields, [PULL_ALL] with
    none. *)
Inductive Message : Type :=
| RUN (statement : Text) (parameters : Parameters)
| PULL_ALL.

Inductive ServerMessage : Type :=
| SUCCESS (metadata : Metadata)
| FAILURE (metadata : Metadata)
| IGNORED
| RECORD (values : list Value).

Definition is_summary (m : ServerMessage) : bool :=
  match m with
  | RECORD _ => false
  | _ => true
  end.

(** ** Objects on the heap *)

(** A handler slot of a [Response] holds either the no-op method of the
    [Response] class or a bound method of a [Result]. *)
Inductive RecordHandler : Type :=
| RH_default
| RH_Result_on_record (result : nat).

Inductive MetadataHandler : Type :=
| MH_default
| MH_Result_on_header (result : nat)
| MH_Result_on_footer (result : nat)
| MH_Result_on_failure (result : nat).

Record Response : Type := mkResponse {
  complete : bool;
  on_record : RecordHandler;
  on_success : MetadataHandler;
  on_failure : MetadataHandler
}.

(** [class Result(list)]: the list itself and the [keys] attribute.  The
    [BenchTest] timestamps are clock readings and are not modelled. *)
Record Result : Type := mkResult {
  keys : option (list string);
  records : list RecordObj
}.

Record Transaction : Type := mkTransaction {
  success : bool;
  closed : bool
}.

(** What the session does to its connection, in call order. *)
Inductive ConnEvent : Type :=
| EvAppend (m : Message)
| EvSend
| EvFetch
| EvClose.

(** Modelled from the spec: the [Connection] class, which [session.py]
    imports from [neo4j/connection.py].  Section 4.1: a message is
    appended to an outgoing buffer without blocking; a flush writes all
    pending messages to the link; a receive blocks until one complete
    message has arrived or fails with a transport error.  Section 5:
    responses arrive in the order of the requests, so the responses awaited
    form a queue.  [incoming] is what the link will deliver, in order;
    [events] records the calls made on the connection. *)
Record Connection : Type := mkConnection {
  outgoing : list Message;
  sent : list Message;
  incoming : list ServerMessage;
  responses : list nat;
  released : bool;
  events : list ConnEvent
}.

(** A session with its connection and the objects reachable from it. *)
Record State : Type := mkState {
  connection : Connection;
  transaction : option nat;
  bench_tests : nat;
  transaction_heap : list Transaction;
  result_heap : list Result;
  response_heap : list Response
}.

(** ** Stateful calls *)

Definition M (A : Type) : Type := State -> Outcome A * State.

Definition ret {A : Type} (a : A) : M A := fun s => (Returns a, s).

Definition raise {A : Type} (e : Exn) : M A := fun s => (Raises e, s).

Definition bind {A B : Type} (m : M A) (k : A -> M B) : M B :=
  fun s =>
    match m s with
    | (Returns a, s') => k a s'
    | (Raises e, s') => (Raises e, s')
    | (Blocks, s') => (Blocks, s')
    end.

Notation "'do' x <- m ; k" := (bind m (fun x => k))
  (at level 10, x name, m at level 100, k at level 200).
Notation "m ;; k" := (bind m (fun _ => k))
  (at level 100, k at level 200, right associativity).

Definition gets {A : Type} (f : State -> A) : M A := fun s => (Returns (f s), s).

Definition modify (f : State -> State) : M unit := fun s => (Returns tt, f s).

Definition with_connection (f : Connection -> Connection) (s : State) : State :=
  mkState (f (connection s)) (transaction s) (bench_tests s)
          (transaction_heap s) (result_heap s) (response_heap s).

Definition with_transaction (t : option nat) (s : State) : State :=
  mkState (connection s) t (bench_tests s)
          (transaction_heap s) (result_heap s) (response_heap s).

Definition with_bench_tests (n : nat) (s : State) : State :=
  mkState (connection s) (transaction s) n
          (transaction_heap s) (result_heap s) (response_heap s).

Definition with_transaction_heap (h : list Transaction) (s : State) : State :=
  mkState (connection s) (transaction s) (bench_tests s)
          h (result_heap s) (response_heap s).

Definition with_result_heap (h : list Result) (s : State) : State :=
  mkState (connection s) (transaction s) (bench_tests s)
          (transaction_heap s) h (response_heap s).

Definition with_response_heap (h : list Response) (s : State) : State :=
  mkState (connection s) (transaction s) (bench_tests s)
          (transaction_heap s) (result_heap s) h.

Definition log_event (e : ConnEvent) (c : Connection) : Connection :=
  mkConnection (outgoing c) (sent c) (incoming c) (responses c) (released c)
               (events c ++ [e]).

(** *** The connection (modelled from the spec, see [Connection]) *)

(** Modelled from the spec: [Connection.append], section 4.1, "appends one
    message to an outgoing buffer without blocking"; the response object
    that will receive the answer joins the queue. *)
Definition Connection_append (m : Message) (response : nat) : M unit :=
  modify (with_connection (fun c =>
    mkConnection (outgoing c ++ [m]) (sent c) (incoming c)
                 (responses c ++ [response]) (released c)
                 (events c ++ [EvAppend m]))).

(** Modelled from the spec: [Connection.send], section 4.1, "writes all
    pending messages to the link"; a write on a released connection is a
    transport error. *)
Definition Connection_send : M unit := fun s =>
  let s := with_connection (log_event EvSend) s in
  if released (connection s) then (Raises ProtocolError, s)
  else (Returns tt, with_connection (fun c =>
          mkConnection [] (sent c ++ outgoing c) (incoming c) (responses c)
                       (released c) (events c)) s).

(** Modelled from the spec: [Connection.close]; section 3, the session
    "releases it on close". *)
Definition Connection_close : M unit :=
  modify (with_connection (fun c =>
    mkConnection (outgoing c) (sent c) (incoming c) (responses c) true
                 (events c ++ [EvClose]))).

Section Session.

(** [hydrated], imported from [neo4j/typesystem.py], turns the structures
    of a record into graph values; it is a parameter here. *)

Variable hydrated : Value -> Value.

(** *** class Result *)

Definition Result___init__ : M nat := fun s =>
  (Returns (length (result_heap s)),
   with_result_heap (result_heap s ++ [mkResult None []]) s).

Definition Result_on_header (self : nat) (metadata : Metadata) : M unit :=
  match md_fields metadata with
  | None => raise (KeyError "fields")
  | Some fields =>
      modify (fun s => with_result_heap
        (alter (fun r => mkResult (Some fields) (records r)) self (result_heap s)) s)
  end.

Definition Result_on_record (self : nat) (values : list Value) : M unit :=
  modify (fun s => with_result_heap
    (alter (fun r => mkResult (keys r)
                       (records r ++ [mkRecord (keys r) (map hydrated values)]))
           self (result_heap s)) s).

Definition Result_on_footer (self : nat) (metadata : Metadata) : M unit :=
  ret tt.

Definition Result_on_failure (self : nat) (metadata : Metadata) : M unit :=
  raise (CypherError metadata).

(** *** class Response *)

Definition Response___init__ : M nat := fun s =>
  (Returns (length (response_heap s)),
   with_response_heap
     (response_heap s ++
        [mkResponse false RH_default MH_default MH_default]) s).

Definition set_on_record (response : nat) (h : RecordHandler) : M unit :=
  modify (fun s => with_response_heap
    (alter (fun r => mkResponse (complete r) h (on_success r) (on_failure r))
           response (response_heap s)) s).

Definition set_on_success (response : nat) (h : MetadataHandler) : M unit :=
  modify (fun s => with_response_heap
    (alter (fun r => mkResponse (complete r) (on_record r) h (on_failure r))
           response (response_heap s)) s).

Definition set_on_failure (response : nat) (h : MetadataHandler) : M unit :=
  modify (fun s => with_response_heap
    (alter (fun r => mkResponse (complete r) (on_record r) (on_success r) h)
           response (response_heap s)) s).

Definition set_complete (response : nat) : M unit :=
  modify (fun s => with_response_heap
    (alter (fun r => mkResponse true (on_record r) (on_success r) (on_failure r))
           response (response_heap s)) s).

Definition is_complete (response : nat) (s : State) : bool :=
  match response_heap s !! response with
  | Some r => complete r
  | None => false
  end.

Definition call_record_handler (h : RecordHandler) (values : list Value) : M unit :=
  match h with
  | RH_default => ret tt
  | RH_Result_on_record result => Result_on_record result values
  end.

Definition call_metadata_handler (h : MetadataHandler) (metadata : Metadata) : M unit :=
  match h with
  | MH_default => ret tt
  | MH_Result_on_header result => Result_on_header result metadata
  | MH_Result_on_footer result => Result_on_footer result metadata
  | MH_Result_on_failure result => Result_on_failure result metadata
  end.

(** The handler of [response] for message [m]; [IGNORED] goes to the
    no-op [on_ignored] of the [Response] class, which the session never
    replaces. *)
Definition handle (response : Response) (m : ServerMessage) : M unit :=
  match m with
  | RECORD values => call_record_handler (on_record response) values
  | SUCCESS metadata => call_metadata_handler (on_success response) metadata
  | FAILURE metadata => call_metadata_handler (on_failure response) metadata
  | IGNORED => ret tt
  end.

Definition pop_response : M unit :=
  modify (with_connection (fun c =>
    mkConnection (outgoing c) (sent c) (incoming c) (tail (responses c))
                 (released c) (events c))).

(** Modelled from the spec: [Connection.fetch_next], section 4.1, "blocks
    until one complete message's bytes have been reassembled from the
    link, or fails with a transport error"; section 7, the message is
    handed to the response at the head of the queue, a failure "raised to
    that call's caller"; a summary message completes that response.  The
    handler runs first: when it raises, the response is neither completed
    nor taken off the queue. *)
Definition Connection_fetch_next : M unit := fun s =>
  let s := with_connection (log_event EvFetch) s in
  let c := connection s in
  if released c then (Raises ProtocolError, s)
  else
    match incoming c with
    | [] => (Blocks, s)
    | m :: rest =>
        let s := with_connection (fun c =>
                   mkConnection (outgoing c) (sent c) rest (responses c)
                                (released c) (events c)) s in
        match responses c with
        | [] => (Raises ProtocolError, s)
        | response :: _ =>
            match response_heap s !! response with
            | None => (Raises ProtocolError, s)
            | Some r =>
                (handle r m ;;
                 if is_summary m
                 then (set_complete response ;; pop_response)
                 else ret tt) s
            end
        end
    end.

(** *** class Session *)

Inductive Statement : Type :=
| StatementBytes (b : Bytes)
| StatementText (t : Text).

(** [Session.__init__], on a connection as [connect] hands it over: open,
    nothing buffered, no response awaited; [link] is what the server is
    going to answer. *)
Definition fresh_connection (link : list ServerMessage) : Connection :=
  mkConnection [] [] link [] false [].

Definition Session___init__ (c : Connection) : State :=
  mkState c None 0 [] [] [].

(** The loop [while not pull_all_response.complete: fetch_next()].  Every
    round that does not end the call takes one message off the link, so
    one round more than there are messages is all the loop can run
    ([fetch_loop_fuel] below); the last branch is never reached. *)
Fixpoint fetch_loop (fuel : nat) (response : nat) : M unit := fun s =>
  if is_complete response s then (Returns tt, s)
  else
    match fuel with
    | O => (Blocks, s)
    | S fuel' => (Connection_fetch_next ;; fetch_loop fuel' response) s
    end.

Definition fetch_until_complete (response : nat) : M unit := fun s =>
  fetch_loop (S (length (incoming (connection s)))) response s.

(** [isinstance(statement, bytes)] and [statement.decode("UTF-8")]. *)
Definition statement_text (statement : Statement) : Outcome Text :=
  match statement with
  | StatementBytes b =>
      match utf8_decode b with
      | Some t => Returns t
      | None => Raises UnicodeDecodeError
      end
  | StatementText t => Returns t
  end.

Definition lift {A : Type} (o : Outcome A) : M A := fun s => (o, s).

(** [Session.run]; it returns the reference of the [Result]. *)
Definition Session_run (statement : Statement) (parameters : option Parameters)
  : M nat :=
  do statement <- lift (statement_text statement);
  let parameters := default [] parameters in
  do result <- Result___init__;
  do run_response <- Response___init__;
  set_on_success run_response (MH_Result_on_header result) ;;
  set_on_failure run_response (MH_Result_on_failure result) ;;
  do pull_all_response <- Response___init__;
  set_on_record pull_all_response (RH_Result_on_record result) ;;
  set_on_success pull_all_response (MH_Result_on_footer result) ;;
  set_on_failure pull_all_response (MH_Result_on_failure result) ;;
  Connection_append (RUN statement parameters) run_response ;;
  Connection_append PULL_ALL pull_all_response ;;
  Connection_send ;;
  fetch_until_complete pull_all_response ;;
  modify (fun s => with_bench_tests (S (bench_tests s)) s) ;;
  ret result.

Definition Session_close : M unit := Connection_close.

Definition Session___exit__ : M unit := Session_close.

(** *** class Transaction

    [success] and [closed] are class attributes, [False] until an
    instance sets its own.  An [assert] is executed, as the interpreter
    does unless it is told to optimise. *)

Definition get_success (self : nat) (s : State) : bool :=
  match transaction_heap s !! self with
  | Some t => success t
  | None => false
  end.

Definition get_closed (self : nat) (s : State) : bool :=
  match transaction_heap s !! self with
  | Some t => closed t
  | None => false
  end.

Definition set_success (self : nat) (b : bool) : M unit :=
  modify (fun s => with_transaction_heap
    (alter (fun t => mkTransaction b (closed t)) self (transaction_heap s)) s).

Definition set_closed (self : nat) (b : bool) : M unit :=
  modify (fun s => with_transaction_heap
    (alter (fun t => mkTransaction (success t) b) self (transaction_heap s)) s).

Definition BEGIN : Statement := StatementText (text_of_string "BEGIN").
Definition COMMIT : Statement := StatementText (text_of_string "COMMIT").
Definition ROLLBACK : Statement := StatementText (text_of_string "ROLLBACK").

(** [Transaction(session)]: the object exists for the caller only once
    [__init__] has returned, which is when it enters the heap. *)
Definition Transaction___init__ : M nat :=
  Session_run BEGIN None ;;
  fun s => (Returns (length (transaction_heap s)),
            with_transaction_heap
              (transaction_heap s ++ [mkTransaction false false]) s).

Definition Session_new_transaction : M nat := fun s =>
  match transaction s with
  | Some _ => (Raises AssertionError, s)
  | None =>
      (do tx <- Transaction___init__;
       modify (with_transaction (Some tx)) ;;
       ret tx) s
  end.

Definition Transaction_run (self : nat) (statement : Statement)
    (parameters : option Parameters) : M nat := fun s =>
  if get_closed self s then (Raises AssertionError, s)
  else Session_run statement parameters s.

Definition Transaction_close (self : nat) : M unit := fun s =>
  if get_closed self s then (Raises AssertionError, s)
  else
    ((if get_success self s
      then Session_run COMMIT None
      else Session_run ROLLBACK None) ;;
     set_closed self true ;;
     modify (with_transaction None)) s.

Definition Transaction_commit (self : nat) : M unit :=
  set_success self true ;; Transaction_close self.

Definition Transaction_rollback (self : nat) : M unit :=
  set_success self false ;; Transaction_close self.

Definition Transaction___enter__ (self : nat) : M nat := ret self.

Definition Transaction___exit__ (self : nat) : M unit := Transaction_close self.

(** *** The [with] statement over a transaction

    What the body of a [with] block does with its transaction: run
    statements, assign [success], call [commit], [rollback] or [close],
    raise, or leave the block early. *)

Inductive Command : Type :=
| Run (statement : Statement) (parameters : option Parameters)
| SetSuccess (b : bool)
| Commit
| Rollback
| Close
| Raise (e : Exn)
| Return.

Definition exec_command (tx : nat) (c : Command) : M unit :=
  match c with
  | Run statement parameters => Transaction_run tx statement parameters ;; ret tt
  | SetSuccess b => set_success tx b
  | Commit => Transaction_commit tx
  | Rollback => Transaction_rollback tx
  | Close => Transaction_close tx
  | Raise e => raise e
  | Return => ret tt
  end.

Fixpoint exec_body (tx : nat) (body : list Command) : M unit :=
  match body with
  | [] => ret tt
  | Return :: _ => ret tt
  | c :: body' => exec_command tx c ;; exec_body tx body'
  end.

(** [with tx: body].  [__exit__] runs on every way out of the body; it
    returns [None], so an exception of the body propagates unless
    [__exit__] raises one of its own. *)
Definition with_statement (tx : nat) (body : list Command) : M unit := fun s =>
  match (Transaction___enter__ tx ;; exec_body tx body) s with
  | (Returns _, s1) => Transaction___exit__ tx s1
  | (Raises e, s1) =>
      match Transaction___exit__ tx s1 with
      | (Returns _, s2) => (Raises e, s2)
      | other => other
      end
  | (Blocks, s1) => (Blocks, s1)
  end.

(** *** Programs over one session

    The calls a program can make on a session and on the transactions it
    obtained from it. *)

Inductive Call : Type :=
| call_Session_run (statement : Statement) (parameters : option Parameters)
| call_Session_close
| call_Session_new_transaction
| call_Transaction_run (tx : nat) (statement : Statement)
                       (parameters : option Parameters)
| call_Transaction_commit (tx : nat)
| call_Transaction_rollback (tx : nat)
| call_Transaction_close (tx : nat)
| call_Transaction_set_success (tx : nat) (b : bool)
| call_with (tx : nat) (body : list Command).

Definition perform (c : Call) (s : State) : State :=
  match c with
  | call_Session_run statement parameters => snd (Session_run statement parameters s)
  | call_Session_close => snd (Session_close s)
  | call_Session_new_transaction => snd (Session_new_transaction s)
  | call_Transaction_run tx statement parameters =>
      snd (Transaction_run tx statement parameters s)
  | call_Transaction_commit tx => snd (Transaction_commit tx s)
  | call_Transaction_rollback tx => snd (Transaction_rollback tx s)
  | call_Transaction_close tx => snd (Transaction_close tx s)
  | call_Transaction_set_success tx b => snd (set_success tx b s)
  | call_with tx body => snd (with_statement tx body s)
  end.

(** A program only holds references to transactions that exist. *)
Definition call_target (c : Call) : option nat :=
  match c with
  | call_Transaction_run tx _ _ | call_Transaction_commit tx
  | call_Transaction_rollback tx | call_Transaction_close tx
  | call_Transaction_set_success tx _ | call_with tx _ => Some tx
  | _ => None
  end.

Inductive reachable : State -> Prop :=
| reachable_init (link : list ServerMessage) :
    reachable (Session___init__ (fresh_connection link))
| reachable_step (s : State) (c : Call) :
    reachable s ->
    (forall tx, call_target c = Some tx -> tx < length (transaction_heap s)) ->
    reachable (perform c s).

End Session.

(** ** class Driver *)

(** What [compat.urlparse] returns, as [Driver.__init__] reads it:
    [scheme] is a field of the tuple; [hostname] and [port] are computed
    when they are read, and reading [port] raises [ValueError] when the
    port of the URL is not a number the library accepts. *)
Record ParseResult : Type := mkParseResult {
  scheme : string;
  hostname : option string;
  port : Outcome (option Z)
}.

Record DriverObj : Type := mkDriver {
  driver_url : string;
  driver_host : option string;
  driver_port : option Z;
  driver_config : list (string * Value)
}.

(** The network as the driver sees it: the connections opened so far. *)
Definition Network : Type := list (option string * option Z).

Section Driver.

(** [compat.urlparse], the URL parser of the Python library; it can raise
    on a URL it does not accept. *)

Variable urlparse : string -> Outcome ParseResult.

Definition Driver___init__ (url : string) (config : list (string * Value))
    (net : Network) : Outcome DriverObj * Network :=
  match urlparse url with
  | Returns parsed =>
      if String.eqb (scheme parsed) "bolt"
      then
        let host := hostname parsed in
        match port parsed with
        | Returns port => (Returns (mkDriver url host port config), net)
        | Raises e => (Raises e, net)
        | Blocks => (Blocks, net)
        end
      else (Raises (ValueError ("Unsupported URL scheme: " +:+ scheme parsed)),
            net)
  | Raises e => (Raises e, net)
  | Blocks => (Blocks, net)
  end.

(** [GraphDatabase.driver]. *)
Definition GraphDatabase_driver (url : string) (config : list (string * Value))
    (net : Network) : Outcome DriverObj * Network :=
  Driver___init__ url config net.

(** [Driver.session]: the one place where the driver reaches for the
    network, through [connect]; [link] stands for what the server at the
    other end is going to send. *)
Definition Driver_session (self : DriverObj) (link : list ServerMessage)
    (net : Network) : State * Network :=
  (Session___init__ (fresh_connection link),
   net ++ [(driver_host self, driver_port self)]).

End Driver.

(** A URL parser to run the constructor on examples.  It follows
    [urllib.parse.urlparse] on URLs of the shape [scheme://host:port/path],
    with no user information and no bracketed address: the scheme, when
    it is made of scheme characters, and the host are put in lower case;
    the port is what follows the first colon of the network location, and
    reading it raises when it is not made of digits or is above 65535. *)
Fixpoint split_on (sep : ascii) (s : string) : string * option string :=
  match s with
  | EmptyString => (EmptyString, None)
  | String c s' =>
      if Ascii.eqb c sep then (EmptyString, Some s')
      else let (a, b) := split_on sep s' in (String c a, b)
  end.

Fixpoint decimal (acc : Z) (s : string) : Z :=
  match s with
  | EmptyString => acc
  | String c s' => decimal (acc * 10 + (Z.of_N (N_of_ascii c) - 48))%Z s'
  end.

Definition between (lo hi : N) (c : ascii) : bool :=
  ((lo <=? N_of_ascii c) && (N_of_ascii c <=? hi))%N.

Definition is_digit (c : ascii) : bool := between 48 57 c.

Definition scheme_char (c : ascii) : bool :=
  between 97 122 c || between 65 90 c || is_digit c
  || Ascii.eqb c "+" || Ascii.eqb c "-" || Ascii.eqb c ".".

Fixpoint all_chars (f : ascii -> bool) (s : string) : bool :=
  match s with
  | EmptyString => true
  | String c s' => f c && all_chars f s'
  end.

Definition lower_char (c : ascii) : ascii :=
  if between 65 90 c then ascii_of_N (N_of_ascii c + 32) else c.

Fixpoint lower (s : string) : string :=
  match s with
  | EmptyString => EmptyString
  | String c s' => String (lower_char c) (lower s')
  end.

(** The network location ends at the first of [/], [?] and [#]. *)
Fixpoint until_delimiter (s : string) : string :=
  match s with
  | EmptyString => EmptyString
  | String c s' =>
      if Ascii.eqb c "/" || Ascii.eqb c "?" || Ascii.eqb c "#"
      then EmptyString
      else String c (until_delimiter s')
  end.

Definition example_port (text : option string) : Outcome (option Z) :=
  match text with
  | None | Some EmptyString => Returns None
  | Some digits =>
      if all_chars is_digit digits then
        if (decimal 0 digits <=? 65535)%Z
        then Returns (Some (decimal 0 digits))
        else Raises (ValueError "Port out of range 0-65535")
      else Raises (ValueError ("Port could not be cast to integer value as '"
                               +:+ digits +:+ "'"))
  end.

Definition example_urlparse (url : string) : Outcome ParseResult :=
  let (sch, rest) :=
    match split_on ":" url with
    | (String c sch, Some rest) =>
        if all_chars scheme_char (String c sch)
        then (lower (String c sch), rest)
        else (EmptyString, url)
    | _ => (EmptyString, url)
    end in
  let netloc :=
    if String.prefix "//" rest
    then until_delimiter (String.substring 2 (String.length rest - 2) rest)
    else EmptyString in
  let (host, port_text) := split_on ":" netloc in
  Returns (mkParseResult sch
             match host with
             | EmptyString => None
             | _ => Some (lower host)
             end
             (example_port port_text)).

(** * Specifications

    The predicates and derived states the properties below are stated
    with. *)

(** The record [Result.on_record] builds from the values of one [RECORD]
    message. *)
Definition record_of (hydrated : Value -> Value) (ks : option (list string))
    (row : list Value) : RecordObj :=
  mkRecord ks (map hydrated row).

(** The state [Session.run] has built when it calls [send]: a new result,
    the two responses with their handlers, and [RUN] and [PULL_ALL] in
    the buffer. *)
Definition prepared (t : Text) (p : Parameters) (s : State) : State :=
  let result := length (result_heap s) in
  let c := connection s in
  mkState
    (mkConnection (outgoing c ++ [RUN t p; PULL_ALL]) (sent c) (incoming c)
       (responses c ++ [length (response_heap s); S (length (response_heap s))])
       (released c) (events c ++ [EvAppend (RUN t p); EvAppend PULL_ALL]))
    (transaction s) (bench_tests s) (transaction_heap s)
    (result_heap s ++ [mkResult None []])
    (response_heap s ++
       [mkResponse false RH_default (MH_Result_on_header result)
                   (MH_Result_on_failure result);
        mkResponse false (RH_Result_on_record result)
                   (MH_Result_on_footer result) (MH_Result_on_failure result)]).

(** The same state after a [send] that went through. *)
Definition flushed (s : State) : State :=
  with_connection (fun c =>
    mkConnection [] (sent c ++ outgoing c) (incoming c) (responses c)
                 (released c) (events c ++ [EvSend])) s.

(** What receiving messages leaves alone, and how it changes the rest. *)
Record frame (s s' : State) : Prop := mkFrame {
  fr_transaction : transaction s' = transaction s;
  fr_transaction_heap : transaction_heap s' = transaction_heap s;
  fr_outgoing : outgoing (connection s') = outgoing (connection s);
  fr_sent : sent (connection s') = sent (connection s);
  fr_released : released (connection s') = released (connection s);
  fr_events : exists n,
    events (connection s') = events (connection s) ++ repeat EvFetch n;
  fr_incoming : exists consumed,
    incoming (connection s) = consumed ++ incoming (connection s');
  fr_results : length (result_heap s') = length (result_heap s);
  fr_on_failure : on_failure <$> response_heap s' = on_failure <$> response_heap s;
  fr_responses : exists k,
    responses (connection s') = drop k (responses (connection s))
}.

(** A handler that raises: [Result.on_failure] of some result. *)
Definition raising (h : MetadataHandler) : Prop :=
  exists result, h = MH_Result_on_failure result.

(** The responses awaited exist, and every response on the heap raises
    on failure: the session creates no other kind. *)
Definition wf (s : State) : Prop :=
  Forall (fun r => r < length (response_heap s)) (responses (connection s))
  /\ Forall raising (on_failure <$> response_heap s).

(** Every transaction that is not closed is the one in the session's
    slot. *)
Definition slot_inv (s : State) : Prop :=
  forall tx t, transaction_heap s !! tx = Some t -> closed t = false ->
               transaction s = Some tx.

(** The invariant of the calls made on the transaction [tx]. *)
Definition Inv (tx : nat) (s : State) : Prop :=
  wf s /\ slot_inv s /\ tx < length (transaction_heap s).

(** A call keeps [P], however it ends. *)
Definition preserves (P : State -> Prop) {A : Type} (m : M A) : Prop :=
  forall s o s', m s = (o, s') -> P s -> P s'.

(** No [FAILURE] among the messages. *)
Definition no_failure (ms : list ServerMessage) : Prop :=
  forall md, FAILURE md ∉ ms.

(** How many of the messages are summaries. *)
Definition summaries (ms : list ServerMessage) : nat :=
  length (filter (fun m => is_summary m = true) ms).

(** The statement [Transaction.close] runs. *)
Definition end_statement (commit : bool) : Text :=
  text_of_string (if commit then "COMMIT" else "ROLLBACK").

(** A command of the body that does not end the transaction itself. *)
Definition leaves_open (c : Command) : bool :=
  match c with
  | Commit | Rollback | Close => false
  | _ => true
  end.

(** The messages that end a transaction on the server. *)
Definition control_text (t : Text) : bool :=
  bool_decide (t = text_of_string "COMMIT")
  || bool_decide (t = text_of_string "ROLLBACK").

Definition control (m : Message) : bool :=
  match m with
  | RUN t _ => control_text t
  | PULL_ALL => false
  end.

(** A command of the body that does not itself run [COMMIT] or
    [ROLLBACK] as a statement. *)
Definition plain (c : Command) : bool :=
  match c with
  | Run statement _ =>
      match statement_text statement with
      | Returns t => negb (control_text t)
      | _ => true
      end
  | _ => true
  end.

(** What holds throughout a body that leaves its transaction open, on a
    connection that was open with an empty buffer: nothing sent since
    [sent0] ends a transaction. *)
Definition body_inv (tx : nat) (sent0 : list Message) (s : State) : Prop :=
  get_closed tx s = false
  /\ tx < length (transaction_heap s)
  /\ released (connection s) = false
  /\ outgoing (connection s) = []
  /\ exists d, sent (connection s) = sent0 ++ d /\ List.filter control d = [].

(** A command of the body that is not an early [return]. *)
Definition falls_through (c : Command) : bool :=
  match c with
  | Return => false
  | _ => true
  end.

(** A command of the body that does not assign [success]. *)
Definition keeps_success (c : Command) : bool :=
  match c with
  | SetSuccess _ => false
  | _ => true
  end.

(** The result a handler slot is bound to, if any. *)
Definition record_handler_target (h : RecordHandler) : option nat :=
  match h with
  | RH_default => None
  | RH_Result_on_record result => Some result
  end.

(** The same for the handlers of summary messages. *)
Definition metadata_handler_target (h : MetadataHandler) : option nat :=
  match h with
  | MH_default => None
  | MH_Result_on_header result | MH_Result_on_footer result
  | MH_Result_on_failure result => Some result
  end.

(** A response whose handlers are bound to no other result than
    [result]. *)
Definition serves (result : nat) (R : Response) : Prop :=
  (forall r, record_handler_target (on_record R) = Some r -> r = result)
  /\ (forall r, metadata_handler_target (on_success R) = Some r -> r = result)
  /\ (forall r, metadata_handler_target (on_failure R) = Some r -> r = result).

(** Every response awaited serves [result]. *)
Definition queue_serves (result : nat) (s : State) : Prop :=
  Forall (fun r => exists R, response_heap s !! r = Some R /\ serves result R)
         (responses (connection s)).

(** How the body of a [with] block leaves its transaction: open; closed
    by a [commit], [rollback] or [close] of its own that returned, with
    the value of [success] that call acted on; or with such a call, made
    on the open transaction, that did not return. *)
Inductive Ending : Type :=
| LeftOpen
| ClosedWith (commit : bool)
| ClosingFailed.

Fixpoint body_ending (hydrated : Value -> Value) (tx : nat)
    (body : list Command) (s : State) : Ending :=
  match body with
  | [] => LeftOpen
  | Return :: _ => LeftOpen
  | c :: body' =>
      match exec_command hydrated tx c s with
      | (Returns _, s1) =>
          match c with
          | Commit => ClosedWith true
          | Rollback => ClosedWith false
          | Close => ClosedWith (get_success tx s)
          | _ => body_ending hydrated tx body' s1
          end
      | _ => if leaves_open c then LeftOpen else ClosingFailed
      end
  end.

(** Every statement the body runs on the open transaction is other than
    [COMMIT] and [ROLLBACK]: the commands that are reached before a
    [commit], [rollback] or [close] of the body are [plain]. *)
Fixpoint runs_plain (hydrated : Value -> Value) (tx : nat)
    (body : list Command) (s : State) : bool :=
  match body with
  | [] => true
  | Return :: _ => true
  | c :: body' =>
      if leaves_open c then
        plain c
        && match exec_command hydrated tx c s with
           | (Returns _, s1) => runs_plain hydrated tx body' s1
           | _ => true
           end
      else true
  end.

(** The value of [success] that decides between [COMMIT] and [ROLLBACK]:
    the one the body's own closing call acted on, or else the one
    [__exit__] finds in the state [s1] the body ends in. *)
Definition deciding_success (hydrated : Value -> Value) (tx : nat)
    (body : list Command) (s s1 : State) : bool :=
  match body_ending hydrated tx body s with
  | ClosedWith commit => commit
  | _ => get_success tx s1
  end.

(** * Example data *)

(** For the examples: their values hold no structures, and hydration
    leaves such values as they are. *)
Definition plain_values (v : Value) : Value := v.

Definition example_header (ks : list string) : Metadata := mkMetadata (Some ks) [].
Definition example_footer : Metadata := mkMetadata None [].
Definition example_failure : Metadata :=
  mkMetadata None [("code", VText "Neo.ClientError.Statement.InvalidSyntax")].

Definition begun (more : list ServerMessage) : State :=
  perform plain_values call_Session_new_transaction
    (Session___init__
       (fresh_connection
          ([SUCCESS (example_header []); SUCCESS example_footer] ++ more))).

Definition RETURN_1 : Statement := StatementText (text_of_string "RETURN 1").

(** * Properties *)

(** ** Records: lookup by position, by name and by attribute *)

Lemma list_index_lookup (item : string) (l : list string) (j : nat) :
  list_index item l = Some j -> l !! j = Some item.
Proof.
  revert j. induction l as [|x l IH]; intros j; simpl; [discriminate|].
  destruct (String.eqb x item) eqn:E.
  - intros [= <-]. apply String.eqb_eq in E. now subst.
  - destruct (list_index item l) as [j'|]; simpl; [|discriminate].
    intros [= <-]. simpl. now apply IH.
Qed.

Lemma list_index_first (item : string) (l : list string) (i : nat) :
  l !! i = Some item -> exists j, list_index item l = Some j /\ j <= i.
Proof.
  revert i. induction l as [|x l IH]; intros i; [discriminate|].
  simpl. destruct (String.eqb x item) eqn:E.
  - intros _. exists 0. split; [reflexivity | lia].
  - destruct i as [|i]; simpl.
    + intros [= ->]. rewrite String.eqb_refl in E. discriminate.
    + intros H. destruct (IH i H) as (j & -> & Hj). exists (S j).
      split; [reflexivity | lia].
Qed.

Lemma sequence_getitem_nat {A : Type} (l : list A) (i : nat) (x : A) :
  l !! i = Some x -> sequence_getitem l (Z.of_nat i) = Returns x.
Proof.
  intros H. pose proof (lookup_lt_Some _ _ _ H) as Hlt.
  unfold sequence_getitem.
  destruct (Z.ltb_spec (Z.of_nat i) 0) as [Hn|_]; [lia|].
  destruct (Z.leb_spec 0 (Z.of_nat i)) as [_|Hn]; [|lia].
  destruct (Z.ltb_spec (Z.of_nat i) (Z.of_nat (length l))) as [_|Hn]; [|lia].
  simpl. now rewrite Nat2Z.id, H.
Qed.

(** Whatever the keys are, the three ways of reading a field go through
    the same attribute access. *)
Lemma Record_getitem_int (keys : list string) (values : list Value)
    (i : nat) (k : string) :
  keys !! i = Some k ->
  Record___getitem__ (mkRecord (Some keys) values) (ItemInt (Z.of_nat i))
  = Record_getattr (mkRecord (Some keys) values) k.
Proof.
  intros H. unfold Record___getitem__. simpl.
  now rewrite (sequence_getitem_nat _ _ _ H).
Qed.

(** C1 (as amended): position, name and attribute access always agree
    with one another; the value they return is the one stored at the
    first position that carries the name, which is position [i] itself
    when no name occurs twice, provided the name is not that of an
    ordinary attribute of the record object. *)
Theorem Record_lookup_agrees (keys : list string) (values : list Value)
    (i : nat) (k : string) :
  length keys = length values ->
  keys !! i = Some k ->
  let record := mkRecord (Some keys) values in
  Record___getitem__ record (ItemInt (Z.of_nat i)) = Record_getattr record k
  /\ Record___getitem__ record (ItemStr k) = Record_getattr record k
  /\ (ordinary_attribute record k = None ->
      exists j v,
        list_index k keys = Some j /\ j <= i /\ values !! j = Some v
        /\ Record_getattr record k = Returns (AttrField v)
        /\ (NoDup keys -> j = i)).
Proof.
  intros Hlen Hk record. split; [|split].
  - now apply Record_getitem_int.
  - reflexivity.
  - intros Hord.
    destruct (list_index_first _ _ _ Hk) as (j & Hj & Hle).
    pose proof (lookup_lt_Some _ _ _ Hk) as Hlt.
    destruct (lookup_lt_is_Some_2 values j) as [v Hv]; [lia|].
    exists j, v. repeat split; try assumption.
    + unfold Record_getattr. rewrite Hord. unfold Record___getattr__. simpl.
      rewrite Hj. now rewrite (sequence_getitem_nat _ _ _ Hv).
    + intros Hnd. apply list_index_lookup in Hj.
      eapply NoDup_lookup; eassumption.
Qed.

(** A record with two fields. *)
Lemma Record_lookup_agrees_witness :
  let keys := ["name"; "age"] in
  let values := [VText "Alice"; VInt 33] in
  length keys = length values /\ keys !! 1 = Some "age" /\ NoDup keys
  /\ Record___getitem__ (mkRecord (Some keys) values) (ItemInt 1)
     = Returns (AttrField (VInt 33))
  /\ Record___getitem__ (mkRecord (Some keys) values) (ItemStr "age")
     = Returns (AttrField (VInt 33)).
Proof.
  intros keys values.
  assert (Hnd : NoDup keys).
  { apply (bool_decide_unpack _). vm_compute. exact I. }
  destruct (Record_lookup_agrees keys values 1 "age" eq_refl eq_refl)
    as (H1 & H2 & H3).
  destruct (H3 eq_refl) as (j & v & _ & _ & Hv & Hget & Hji).
  rewrite (Hji Hnd) in Hv. injection Hv as <-.
  split; [reflexivity|]. split; [reflexivity|]. split; [exact Hnd|].
  split; [exact (eq_trans H1 Hget) | exact (eq_trans H2 Hget)].
Defined.

(** C1 as stated fails when a name occurs twice: position 1 holds 2, and
    [record[1]] is 1, the value at the first position named ["a"]. *)
Lemma Record_duplicate_keys_counterexample :
  let keys := ["a"; "a"] in
  let values := [VInt 1; VInt 2] in
  length keys = length values
  /\ keys !! 1 = Some "a"
  /\ values !! 1 = Some (VInt 2)
  /\ Record___getitem__ (mkRecord (Some keys) values) (ItemInt 1)
     = Returns (AttrField (VInt 1))
  /\ Record_getattr (mkRecord (Some keys) values) "a"
     = Returns (AttrField (VInt 1)).
Proof. repeat split. Qed.

(** A field named like an instance attribute is hidden by it: ordinary
    lookup answers before [__getattr__] is asked. *)
Lemma Record_attribute_name_example :
  Record___getitem__ (mkRecord (Some ["__keys__"]) [VInt 1]) (ItemInt 0)
  = Returns (AttrKeys (Some ["__keys__"])).
Proof. reflexivity. Qed.

(** ** UTF-8 *)

Local Open Scope Z_scope.

Ltac zb :=
  repeat match goal with
  | |- context [Z.leb ?a ?b] =>
      first [ replace (Z.leb a b) with true by (symmetry; apply Z.leb_le; lia)
            | replace (Z.leb a b) with false by (symmetry; apply Z.leb_gt; lia) ]
  | |- context [Z.ltb ?a ?b] =>
      first [ replace (Z.ltb a b) with true by (symmetry; apply Z.ltb_lt; lia)
            | replace (Z.ltb a b) with false by (symmetry; apply Z.ltb_ge; lia) ]
  end.

Lemma utf8_decode_encode_point (c : Z) (rest : Bytes) :
  scalar_value c = true ->
  utf8_decode (utf8_encode_point c ++ rest) = option_map (cons c) (utf8_decode rest).
Proof.
  unfold scalar_value, surrogate. intros H.
  apply andb_true_iff in H as [H Hs]. apply andb_true_iff in H as [H0 H1].
  apply Z.leb_le in H0, H1. apply negb_true_iff in Hs.
  apply andb_false_iff in Hs.
  assert (Hsur : c < 0xD800 \/ 0xDFFF < c).
  { destruct Hs as [Hs|Hs]; [left; apply Z.leb_gt in Hs | right; apply Z.leb_gt in Hs]; lia. }
  clear Hs.
  unfold utf8_encode_point.
  destruct (Z.ltb_spec c 0x80) as [Ha|Ha].
  { simpl. zb. reflexivity. }
  destruct (Z.ltb_spec c 0x800) as [Hb|Hb].
  { pose proof (Z.div_mod c 64 ltac:(lia)) as E.
    pose proof (Z.mod_pos_bound c 64 ltac:(lia)) as B.
    assert (2 <= c / 64 <= 31) by lia.
    cbn [app utf8_decode]. unfold continuation. zb. cbn [andb].
    replace ((192 + c / 64 - 192) * 64 + (128 + c mod 64 - 128)) with c by lia.
    zb. reflexivity. }
  destruct (Z.ltb_spec c 0x10000) as [Hc|Hc].
  { pose proof (Z.div_mod c 64 ltac:(lia)) as E.
    pose proof (Z.mod_pos_bound c 64 ltac:(lia)) as B.
    pose proof (Z.div_mod (c / 64) 64 ltac:(lia)) as E2.
    pose proof (Z.mod_pos_bound (c / 64) 64 ltac:(lia)) as B2.
    assert (Hd : c / 4096 = c / 64 / 64) by (rewrite Z.div_div by lia; reflexivity).
    assert (0 <= c / 4096 <= 15) by lia.
    cbn [app utf8_decode]. unfold continuation, surrogate. zb. cbn [andb].
    replace ((224 + c / 4096 - 224) * 4096 + (128 + (c / 64) mod 64 - 128) * 64 + (128 + c mod 64 - 128)) with c by lia.
    zb. 
    destruct Hsur as [Hsur|Hsur]; zb; reflexivity. }
  { pose proof (Z.div_mod c 64 ltac:(lia)) as E.
    pose proof (Z.mod_pos_bound c 64 ltac:(lia)) as B.
    pose proof (Z.div_mod (c / 64) 64 ltac:(lia)) as E2.
    pose proof (Z.mod_pos_bound (c / 64) 64 ltac:(lia)) as B2.
    pose proof (Z.div_mod (c / 4096) 64 ltac:(lia)) as E3.
    pose proof (Z.mod_pos_bound (c / 4096) 64 ltac:(lia)) as B3.
    assert (Hd : c / 4096 = c / 64 / 64) by (rewrite Z.div_div by lia; reflexivity).
    assert (Hd2 : c / 262144 = c / 4096 / 64) by (rewrite Z.div_div by lia; reflexivity).
    assert (0 <= c / 262144 <= 4) by lia.
    cbn [app utf8_decode]. unfold continuation. zb. cbn [andb].
    replace ((240 + c / 262144 - 240) * 262144 + (128 + (c / 4096) mod 64 - 128) * 4096 + (128 + (c / 64) mod 64 - 128) * 64 + (128 + c mod 64 - 128)) with c by lia.
    zb. reflexivity. }
Qed.

Lemma utf8_decode_encode (t : Text) :
  forallb scalar_value t = true -> utf8_decode (utf8_encode t) = Some t.
Proof.
  induction t as [|c t IH]; [reflexivity|].
  simpl. intros H. apply andb_true_iff in H as [Hc Ht].
  unfold utf8_encode. simpl. rewrite utf8_decode_encode_point by assumption.
  fold (utf8_encode t). now rewrite IH.
Qed.

Local Close Scope Z_scope.

Section Properties.
Variable hydrated : Value -> Value.

Lemma alter_at_length {A : Type} (f : A -> A) (l : list A) (x : A) :
  alter f (length l) (l ++ [x]) = l ++ [f x].
Proof.
  replace (length l) with (length l + 0) by lia.
  now rewrite alter_app_r.
Qed.

Lemma Session_run_unfold (statement : Statement) (p : option Parameters) (s : State) :
  Session_run hydrated statement p s =
  match statement_text statement with
  | Returns t =>
      if released (connection s)
      then (Raises ProtocolError,
            with_connection (log_event EvSend) (prepared t (default [] p) s))
      else
        match fetch_until_complete hydrated (S (length (response_heap s)))
                (flushed (prepared t (default [] p) s)) with
        | (Returns _, s2) =>
            (Returns (length (result_heap s)),
             with_bench_tests (S (bench_tests s2)) s2)
        | (Raises e, s2) => (Raises e, s2)
        | (Blocks, s2) => (Blocks, s2)
        end
  | Raises e => (Raises e, s)
  | Blocks => (Blocks, s)
  end.
Proof.
  unfold Session_run, bind at 1, lift.
  destruct (statement_text statement) as [t|e|]; try reflexivity.
  destruct s as [c tx bt th rh rsh]. destruct c as [og se inc q rel ev].
  cbv [bind Result___init__ Response___init__ set_on_success set_on_failure
       set_on_record Connection_append Connection_send modify with_response_heap
       with_result_heap with_connection log_event ret prepared flushed
       with_bench_tests connection transaction bench_tests transaction_heap
       result_heap response_heap outgoing sent incoming responses released events].
  rewrite !alter_at_length. cbn [complete on_record on_success on_failure].
  rewrite !length_app. cbn [length]. rewrite !Nat.add_1_r.
  rewrite <- !app_assoc. cbn [app].
  destruct rel; [reflexivity|].
  destruct (fetch_until_complete _ _ _) as [[?|?|] ?]; reflexivity.
Qed.

Lemma fmap_alter_same {A B : Type} (f : A -> B) (g : A -> A) (i : nat) (l : list A) :
  (forall x, f (g x) = f x) -> f <$> alter g i l = f <$> l.
Proof.
  intros H. revert i. induction l as [|x l IH]; intros [|i]; simpl; try reflexivity.
  - now rewrite H.
  - f_equal. apply IH.
Qed.

Lemma frame_refl (s : State) : frame s s.
Proof.
  constructor; try reflexivity.
  - exists 0. simpl. now rewrite app_nil_r.
  - now exists [].
  - now exists 0.
Qed.

Lemma frame_trans (s1 s2 s3 : State) : frame s1 s2 -> frame s2 s3 -> frame s1 s3.
Proof.
  intros [] []. constructor; try congruence.
  - destruct fr_events0 as [n Hn], fr_events1 as [m Hm]. exists (n + m).
    rewrite Hm, Hn, repeat_app. now rewrite app_assoc.
  - destruct fr_incoming0 as [a Ha], fr_incoming1 as [b Hb]. exists (a ++ b).
    rewrite Ha, Hb. now rewrite app_assoc.
  - destruct fr_responses0 as [n Hn], fr_responses1 as [m Hm]. exists (n + m).
    rewrite Hm, Hn. now rewrite drop_drop.
Qed.

Lemma handle_frame (r : Response) (m : ServerMessage) (s : State) o s' :
  handle hydrated r m s = (o, s') ->
  connection s' = connection s /\ transaction s' = transaction s
  /\ transaction_heap s' = transaction_heap s
  /\ response_heap s' = response_heap s
  /\ length (result_heap s') = length (result_heap s).
Proof.
  intros H.
  assert (E : s' = s \/ exists f i, s' = with_result_heap (alter f i (result_heap s)) s).
  { destruct m as [md|md| |values]; simpl in H.
    - destruct (on_success r); simpl in H;
        cbv [Result_on_header Result_on_footer Result_on_failure ret raise modify] in H;
        try destruct (md_fields md); cbv beta in H; injection H as <- <-; eauto.
    - destruct (on_failure r); simpl in H;
        cbv [Result_on_header Result_on_footer Result_on_failure ret raise modify] in H;
        try destruct (md_fields md); cbv beta in H; injection H as <- <-; eauto.
    - cbv [ret] in H. injection H as <- <-; eauto.
    - destruct (on_record r); simpl in H;
        cbv [Result_on_record ret modify] in H; injection H as <- <-; eauto. }
  destruct E as [->|(f & i & ->)]; simpl; rewrite ?length_alter; auto.
Qed.

Lemma fetch_next_frame (s : State) o s' :
  Connection_fetch_next hydrated s = (o, s') -> frame s s'.
Proof.
  unfold Connection_fetch_next. cbn [connection with_connection log_event released
    incoming responses].
  destruct (released (connection s)) eqn:Hrel.
  { intros [= <- <-]. constructor; simpl; try reflexivity; try assumption.
    - now exists 1.
    - now exists [].
    - now exists 0. }
  destruct (incoming (connection s)) as [|m rest] eqn:Hinc.
  { intros [= <- <-]. constructor; simpl; try reflexivity; try assumption.
    - now exists 1.
    - now exists [].
    - now exists 0. }
  destruct (responses (connection s)) as [|r q] eqn:Hq.
  { intros [= <- <-]. constructor; simpl; try reflexivity; try assumption.
    - now exists 1.
    - now exists [m].
    - now exists 0. }
  cbn [response_heap with_connection].
  destruct (response_heap s !! r) as [R|] eqn:HR.
  2:{ intros [= <- <-]. constructor; simpl; try reflexivity; try assumption.
    - now exists 1.
    - now exists [m].
    - exists 0. now rewrite Hq. }
  unfold bind at 1.
  match goal with |- context [handle hydrated R m ?s1] =>
    destruct (handle hydrated R m s1) as [o1 s2] eqn:Hh end.
  apply handle_frame in Hh as (Hc & Ht & Hth & Hrh & Hres). simpl in *.
  assert (Hbase : frame s s2).
  { constructor; rewrite ?Hc, ?Ht, ?Hth, ?Hrh, ?Hres; simpl; try reflexivity;
      try assumption.
    - now exists 1.
    - now exists [m].
    - exists 0. now rewrite Hq. }
  destruct o1 as [[]|e|]; try (intros [= <- <-]; exact Hbase).
  destruct (is_summary m); [|intros [= <- <-]; exact Hbase].
  unfold bind, set_complete, pop_response, modify. intros [= <- <-].
  destruct Hbase. constructor; simpl; try assumption.
  - rewrite fmap_alter_same by reflexivity. assumption.
  - exists 1. rewrite Hc. simpl. rewrite Hq. reflexivity.
Qed.

Lemma fetch_loop_frame (fuel response : nat) (s : State) o s' :
  fetch_loop hydrated fuel response s = (o, s') -> frame s s'.
Proof.
  revert s. induction fuel as [|fuel IH]; intros s; simpl.
  - destruct (is_complete response s); intros [= <- <-]; apply frame_refl.
  - destruct (is_complete response s); [intros [= <- <-]; apply frame_refl|].
    unfold bind.
    destruct (Connection_fetch_next hydrated s) as [o1 s1] eqn:H1.
    apply fetch_next_frame in H1.
    destruct o1 as [[]|e|]; try (intros [= <- <-]; exact H1).
    intros H2. apply IH in H2. eapply frame_trans; eassumption.
Qed.

(** A call of [fetch_next] that returns has taken one message off the
    link. *)
Lemma fetch_next_consumes (s : State) s' :
  Connection_fetch_next hydrated s = (Returns tt, s') ->
  length (incoming (connection s)) = S (length (incoming (connection s'))).
Proof.
  unfold Connection_fetch_next. cbn [connection with_connection log_event released
    incoming responses].
  destruct (released (connection s)); [discriminate|].
  destruct (incoming (connection s)) as [|m rest]; [discriminate|].
  destruct (responses (connection s)) as [|r q]; [discriminate|].
  cbn [response_heap with_connection].
  destruct (response_heap s !! r) as [R|]; [|discriminate].
  unfold bind at 1.
  match goal with |- context [handle hydrated R m ?s1] =>
    destruct (handle hydrated R m s1) as [o1 s2] eqn:Hh end.
  apply handle_frame in Hh as (Hc & _). simpl in Hc.
  destruct o1 as [[]|e|]; try discriminate.
  destruct (is_summary m).
  - unfold bind, set_complete, pop_response, modify. intros [= <-]. simpl.
    now rewrite Hc.
  - intros [= <-]. now rewrite Hc.
Qed.

(** The fuel of the loop never runs out: with more fuel than there are
    messages on the link, the loop does the same whatever the fuel. *)
Lemma fetch_loop_fuel (fuel fuel' response : nat) (s : State) :
  length (incoming (connection s)) < fuel ->
  length (incoming (connection s)) < fuel' ->
  fetch_loop hydrated fuel response s = fetch_loop hydrated fuel' response s.
Proof.
  revert fuel' s. induction fuel as [|fuel IH]; intros fuel' s H1 H2; [lia|].
  destruct fuel' as [|fuel']; [lia|]. simpl.
  destruct (is_complete response s); [reflexivity|]. unfold bind.
  destruct (Connection_fetch_next hydrated s) as [[[]|e|] s1] eqn:E;
    try reflexivity.
  apply fetch_next_consumes in E. apply IH; lia.
Qed.

(** *** Pipelining *)

(** The calls [Session.run] makes on its connection, and what is on the
    wire after them. *)
Lemma Session_run_trace (statement : Statement) (p : option Parameters)
    (t : Text) (s : State) o s' :
  statement_text statement = Returns t ->
  Session_run hydrated statement p s = (o, s') ->
  (exists n,
     events (connection s')
     = events (connection s)
       ++ [EvAppend (RUN t (default [] p)); EvAppend PULL_ALL; EvSend]
       ++ repeat EvFetch n)
  /\ (released (connection s) = false ->
      sent (connection s')
      = sent (connection s) ++ outgoing (connection s)
        ++ [RUN t (default [] p); PULL_ALL]
      /\ outgoing (connection s') = []).
Proof.
  intros Ht. rewrite Session_run_unfold, Ht.
  destruct (released (connection s)) eqn:Hrel.
  { intros [= <- <-]. split; [|discriminate].
    exists 0. simpl. now rewrite <- app_assoc. }
  unfold fetch_until_complete.
  match goal with |- context [fetch_loop hydrated ?f ?r ?s1] =>
    destruct (fetch_loop hydrated f r s1) as [o1 s2] eqn:Hloop end.
  apply fetch_loop_frame in Hloop. destruct Hloop.
  destruct fr_events0 as [n Hn]. simpl in *.
  intros H.
  assert (Hs : connection s' = connection s2).
  { destruct o1 as [[]|e|]; injection H as <- <-; reflexivity. }
  rewrite Hs. split.
  - exists n. rewrite Hn. now rewrite <- !app_assoc.
  - intros _. rewrite fr_sent0, fr_outgoing0. split; reflexivity.
Qed.

(** C8: in every call of [Session.run], [RUN] and then [PULL_ALL] are
    appended to the outgoing buffer and flushed by one [send], and every
    [fetch_next] of the call comes after that; on an open connection the
    two messages go on the wire together, in this order, behind what the
    buffer held. *)
Theorem Session_run_pipelines (statement : Statement) (p : option Parameters)
    (t : Text) (s : State) o s' :
  statement_text statement = Returns t ->
  Session_run hydrated statement p s = (o, s') ->
  (exists n,
     events (connection s')
     = events (connection s)
       ++ [EvAppend (RUN t (default [] p)); EvAppend PULL_ALL; EvSend]
       ++ repeat EvFetch n)
  /\ (forall before after,
        events (connection s')
        = events (connection s) ++ before ++ EvFetch :: after ->
        exists more,
          before
          = [EvAppend (RUN t (default [] p)); EvAppend PULL_ALL; EvSend] ++ more)
  /\ (released (connection s) = false ->
      sent (connection s')
      = sent (connection s) ++ outgoing (connection s)
        ++ [RUN t (default [] p); PULL_ALL]
      /\ outgoing (connection s') = []).
Proof.
  intros Ht Hrun.
  destruct (Session_run_trace _ _ _ _ _ _ Ht Hrun) as [[n Hn] Hsent].
  split; [now exists n|]. split; [|exact Hsent].
  intros before after H. rewrite Hn in H. apply app_inv_head in H.
  destruct before as [|x [|y [|z more]]]; try discriminate.
  injection H as -> -> -> _. now exists more.
Qed.

(** *** What a call of [Session.run] leaves alone *)

Lemma wf_frame (s s' : State) : frame s s' -> wf s -> wf s'.
Proof.
  intros [] [Hq Hh]. split.
  - destruct fr_responses0 as [k ->].
    assert (Hlen : length (response_heap s') = length (response_heap s)).
    { rewrite <- (length_fmap on_failure (response_heap s')), fr_on_failure0.
      apply length_fmap. }
    rewrite Hlen. now apply Forall_drop.
  - now rewrite fr_on_failure0.
Qed.

Lemma wf_prepared (t : Text) (p : Parameters) (s : State) :
  wf s -> wf (prepared t p s).
Proof.
  intros [Hq Hh]. split; simpl.
  - rewrite length_app. simpl. apply Forall_app. split.
    + eapply Forall_impl; [exact Hq|]. simpl. intros; lia.
    + repeat constructor; lia.
  - rewrite fmap_app. apply Forall_app. split; [assumption|].
    repeat constructor; eexists; reflexivity.
Qed.

Lemma Session_run_effect (statement : Statement) (p : option Parameters)
    (s : State) o s' :
  Session_run hydrated statement p s = (o, s') ->
  transaction s' = transaction s
  /\ transaction_heap s' = transaction_heap s
  /\ released (connection s') = released (connection s)
  /\ (wf s -> wf s').
Proof.
  rewrite Session_run_unfold.
  destruct (statement_text statement) as [t|e|];
    try (intros [= <- <-]; tauto).
  destruct (released (connection s)) eqn:Hrel.
  { intros [= <- <-]. simpl. split; [reflexivity|]. split; [reflexivity|].
    split; [assumption|].
    intros H. apply (wf_prepared t (default [] p)) in H. exact H. }
  unfold fetch_until_complete.
  match goal with |- context [fetch_loop hydrated ?f ?r ?s1] =>
    destruct (fetch_loop hydrated f r s1) as [o1 s2] eqn:Hloop end.
  apply fetch_loop_frame in Hloop. intros H.
  assert (Hw : wf s -> wf s2).
  { intros Hwf. eapply wf_frame; [exact Hloop|].
    apply (wf_prepared t (default [] p)) in Hwf. exact Hwf. }
  destruct Hloop. simpl in *.
  destruct o1 as [[]|e|]; injection H as <- <-; simpl;
    (split; [congruence|]; split; [congruence|]; split; [congruence|];
     exact Hw).
Qed.

(** *** One open transaction *)

Lemma preserves_bind (P : State -> Prop) {A B : Type} (m : M A) (k : A -> M B) :
  preserves P m -> (forall a, preserves P (k a)) -> preserves P (bind m k).
Proof.
  intros Hm Hk s o s'. unfold bind.
  destruct (m s) as [o1 s1] eqn:E. specialize (Hm _ _ _ E).
  destruct o1 as [a|e|]; try (intros [= <- <-]; exact Hm).
  intros H Hs. eapply Hk; eauto.
Qed.

Lemma preserves_ret (P : State -> Prop) {A : Type} (a : A) : preserves P (ret a).
Proof. intros s o s' [= <- <-]. auto. Qed.

Lemma preserves_raise (P : State -> Prop) {A : Type} (e : Exn) :
  preserves P (raise e : M A).
Proof. intros s o s' [= <- <-]. auto. Qed.

Lemma Session_run_Inv (tx : nat) statement p :
  preserves (Inv tx) (Session_run hydrated statement p).
Proof.
  intros s o s' H (Hw & Hs & Hv).
  apply Session_run_effect in H as (Ht & Hh & _ & Hwf).
  split; [auto|]. split; [|congruence].
  intros tx' t. rewrite Ht, Hh. apply Hs.
Qed.

Lemma set_success_Inv (tx tx' : nat) (b : bool) :
  preserves (Inv tx) (set_success tx' b).
Proof.
  intros s o s' [= <- <-] (Hw & Hs & Hv). split; [exact Hw|]. split.
  - intros tx0 t0. simpl. destruct (decide (tx' = tx0)) as [->|Hne].
    + rewrite list_lookup_alter_eq.
      destruct (transaction_heap s !! tx0) as [t|] eqn:E; [|discriminate].
      simpl. intros [= <-]. simpl. now apply Hs.
    + rewrite list_lookup_alter_ne by assumption. apply Hs.
  - simpl. now rewrite length_alter.
Qed.

Lemma Transaction_close_Inv (tx : nat) :
  preserves (Inv tx) (Transaction_close hydrated tx).
Proof.
  intros s o s' H HI. unfold Transaction_close in H.
  destruct (get_closed tx s) eqn:Hc; [injection H as <- <-; exact HI|].
  unfold bind at 1 in H.
  set (run := if get_success tx s then _ else _) in H.
  destruct (run s) as [o1 s1] eqn:Hrun.
  assert (HI1 : Inv tx s1).
  { unfold run in Hrun. destruct (get_success tx s);
      eapply Session_run_Inv; eauto. }
  destruct o1 as [result|e|]; try (injection H as <- <-; exact HI1).
  injection H as <- <-. destruct HI1 as (Hw & Hs & Hv).
  split; [exact Hw|]. split.
  - intros tx0 t0. simpl. destruct (decide (tx = tx0)) as [->|Hne].
    + rewrite list_lookup_alter_eq.
      destruct (transaction_heap s1 !! tx0); [|discriminate].
      simpl. intros [= <-]. discriminate.
    + rewrite list_lookup_alter_ne by assumption. intros Hl Hcl.
      assert (Hopen : get_closed tx s1 = false).
      { unfold run in Hrun.
        destruct (get_success tx s);
          apply Session_run_effect in Hrun as (_ & Hh & _);
          unfold get_closed; rewrite Hh; exact Hc. }
      unfold get_closed in Hopen.
      destruct (lookup_lt_is_Some_2 _ _ Hv) as [t Ht]. rewrite Ht in Hopen.
      pose proof (Hs _ _ Ht Hopen) as H1. pose proof (Hs _ _ Hl Hcl) as H2.
      congruence.
  - simpl. now rewrite length_alter.
Qed.

Lemma Transaction_run_Inv (tx : nat) statement p :
  preserves (Inv tx) (Transaction_run hydrated tx statement p).
Proof.
  intros s o s'. unfold Transaction_run.
  destruct (get_closed tx s); [intros [= <- <-]; auto|].
  apply Session_run_Inv.
Qed.

Lemma exec_command_Inv (tx : nat) (c : Command) :
  preserves (Inv tx) (exec_command hydrated tx c).
Proof.
  destruct c; simpl;
    unfold Transaction_commit, Transaction_rollback;
    repeat first [ apply preserves_bind; [|intros ?]
                 | apply Transaction_run_Inv | apply Transaction_close_Inv
                 | apply set_success_Inv | apply preserves_ret
                 | apply preserves_raise ].
Qed.

Lemma exec_body_Inv (tx : nat) (body : list Command) :
  preserves (Inv tx) (exec_body hydrated tx body).
Proof.
  induction body as [|c body IH]; simpl; [apply preserves_ret|].
  destruct c; try apply preserves_ret;
    (apply preserves_bind; [apply exec_command_Inv | intros ?; exact IH]).
Qed.

Lemma with_statement_Inv (tx : nat) (body : list Command) :
  preserves (Inv tx) (with_statement hydrated tx body).
Proof.
  intros s o s'. unfold with_statement.
  destruct ((Transaction___enter__ tx;; exec_body hydrated tx body) s)
    as [o1 s1] eqn:Hb.
  intros H HI.
  assert (HI1 : Inv tx s1).
  { revert Hb HI. apply (preserves_bind (Inv tx)).
    - apply preserves_ret.
    - intros ?. apply exec_body_Inv. }
  unfold Transaction___exit__ in H.
  destruct o1 as [[]|e|].
  - eapply Transaction_close_Inv; eauto.
  - destruct (Transaction_close hydrated tx s1) as [o2 s2] eqn:Hc.
    apply Transaction_close_Inv in Hc. specialize (Hc HI1).
    destruct o2 as [[]|?|]; injection H as <- <-; exact Hc.
  - injection H as <- <-. exact HI1.
Qed.

Lemma Session_new_transaction_returns (s : State) tx s' :
  Session_new_transaction hydrated s = (Returns tx, s') ->
  transaction s = None
  /\ tx = length (transaction_heap s)
  /\ transaction s' = Some tx
  /\ transaction_heap s' = transaction_heap s ++ [mkTransaction false false].
Proof.
  unfold Session_new_transaction.
  destruct (transaction s) eqn:Hslot; [discriminate|].
  unfold Transaction___init__, bind.
  destruct (Session_run hydrated BEGIN None s) as [o1 s1] eqn:Hrun.
  apply Session_run_effect in Hrun as (Ht & Hh & _).
  destruct o1 as [r|e|]; try discriminate.
  unfold modify, ret. intros [= <- <-]. simpl. rewrite Hh. auto.
Qed.

Lemma Session_new_transaction_Inv (s : State) o s' :
  Session_new_transaction hydrated s = (o, s') ->
  wf s /\ slot_inv s -> wf s' /\ slot_inv s'.
Proof.
  unfold Session_new_transaction.
  destruct (transaction s) eqn:Hslot; [intros [= <- <-]; auto|].
  unfold Transaction___init__, bind.
  destruct (Session_run hydrated BEGIN None s) as [o1 s1] eqn:Hrun.
  apply Session_run_effect in Hrun as (Ht & Hh & _ & Hwf).
  intros H [Hw Hs].
  assert (H1 : wf s1 /\ slot_inv s1).
  { split; [auto|]. intros tx t. rewrite Ht, Hh. apply Hs. }
  destruct o1 as [r|e|]; try (injection H as <- <-; exact H1).
  unfold modify, ret in H. injection H as <- <-. split.
  - apply H1.
  - intros tx t. simpl. intros Hl Hc.
    destruct (decide (tx < length (transaction_heap s1))) as [Hlt|Hge].
    + rewrite lookup_app_l in Hl by assumption.
      destruct H1 as [_ H1]. specialize (H1 _ _ Hl Hc). congruence.
    + apply lookup_lt_Some in Hl. rewrite length_app in Hl. simpl in Hl.
      f_equal. lia.
Qed.

Lemma reachable_Inv (s : State) :
  reachable hydrated s -> wf s /\ slot_inv s.
Proof.
  induction 1 as [link|s c Hr IH Hv].
  - split; [split; constructor|]. intros tx t. discriminate.
  - destruct c; simpl in *;
      try (specialize (Hv _ eq_refl);
           assert (HI : Inv tx s)
             by (destruct IH; split; [assumption | split; assumption])).
    + destruct (Session_run hydrated statement parameters s) as [o s'] eqn:E.
      simpl. apply Session_run_effect in E as (Ht & Hh & _ & Hwf).
      split; [apply Hwf, IH|]. intros tx t. rewrite Ht, Hh. apply IH.
    + exact IH.
    + destruct (Session_new_transaction hydrated s) as [o s'] eqn:E.
      eapply Session_new_transaction_Inv; eauto.
    + destruct (Transaction_run hydrated tx statement parameters s) as [o s'] eqn:E.
      apply Transaction_run_Inv in E. specialize (E HI). simpl. split; apply E.
    + destruct (Transaction_commit hydrated tx s) as [o s'] eqn:E.
      assert (H' : Inv tx s'); [|simpl; split; apply H'].
      revert E HI. apply (exec_command_Inv tx Commit).
    + destruct (Transaction_rollback hydrated tx s) as [o s'] eqn:E.
      assert (H' : Inv tx s'); [|simpl; split; apply H'].
      revert E HI. apply (exec_command_Inv tx Rollback).
    + destruct (Transaction_close hydrated tx s) as [o s'] eqn:E.
      apply Transaction_close_Inv in E. specialize (E HI). simpl. split; apply E.
    + assert (H' : Inv tx (snd (set_success tx b s))); [|split; apply H'].
      eapply set_success_Inv; [|exact HI]. reflexivity.
    + destruct (with_statement hydrated tx body s) as [o s'] eqn:E.
      apply with_statement_Inv in E. specialize (E HI). simpl. split; apply E.
Qed.

(** C2: in every state a program can reach, at most one transaction is
    open, and it is the one in the session's slot; [new_transaction]
    returns only when the slot is empty, the new transaction then fills
    it; while a transaction is open, [new_transaction] fails with an
    assertion error and leaves the state as it was. *)
Theorem Session_single_transaction (s : State) :
  reachable hydrated s ->
  (forall tx1 tx2 t1 t2,
      transaction_heap s !! tx1 = Some t1 -> closed t1 = false ->
      transaction_heap s !! tx2 = Some t2 -> closed t2 = false ->
      tx1 = tx2 /\ transaction s = Some tx1)
  /\ (forall tx s',
       Session_new_transaction hydrated s = (Returns tx, s') ->
       transaction s = None /\ transaction s' = Some tx
       /\ transaction_heap s' !! tx = Some (mkTransaction false false))
  /\ (forall tx t,
       transaction_heap s !! tx = Some t -> closed t = false ->
       Session_new_transaction hydrated s = (Raises AssertionError, s)).
Proof.
  intros Hr. apply reachable_Inv in Hr as [_ Hs]. split; [|split].
  - intros tx1 tx2 t1 t2 H1 C1 H2 C2.
    pose proof (Hs _ _ H1 C1) as E1. pose proof (Hs _ _ H2 C2) as E2.
    split; congruence.
  - intros tx s' H. apply Session_new_transaction_returns in H
      as (H0 & -> & H1 & H2).
    repeat split; try assumption.
    rewrite H2. now rewrite list_lookup_middle.
  - intros tx t Hl Hc. unfold Session_new_transaction.
    now rewrite (Hs _ _ Hl Hc).
Qed.

(** *** Failures *)

Lemma wf_on_failure (s : State) (r : nat) (R : Response) :
  wf s -> response_heap s !! r = Some R -> raising (on_failure R).
Proof.
  intros [_ Hh] HR. rewrite Forall_forall in Hh. apply Hh.
  apply list_elem_of_fmap. exists R. split; [reflexivity|].
  eapply list_elem_of_lookup_2; eassumption.
Qed.

(** One call of [fetch_next]: either nothing is taken off the link and the
    call does not return, or one message [m] is, and goes to the response
    at the head of the queue. *)
Lemma fetch_next_step (s : State) o s' :
  wf s ->
  Connection_fetch_next hydrated s = (o, s') ->
  (incoming (connection s') = incoming (connection s)
   /\ (o = Raises ProtocolError \/ o = Blocks))
  \/ (exists m r q,
        incoming (connection s) = m :: incoming (connection s')
        /\ responses (connection s) = r :: q
        /\ (forall md, m = FAILURE md -> o = Raises (CypherError md))
        /\ (o = Returns tt ->
            responses (connection s') = (if is_summary m then q else r :: q)
            /\ (is_summary m = true -> is_complete r s' = true)))
  \/ (responses (connection s) = [] /\ o = Raises ProtocolError).
Proof.
  intros Hwf. unfold Connection_fetch_next.
  cbn [connection with_connection log_event released incoming responses].
  destruct (released (connection s)) eqn:Hrel.
  { intros [= <- <-]. left. simpl. auto. }
  destruct (incoming (connection s)) as [|m rest] eqn:Hinc.
  { intros [= <- <-]. left. simpl. auto. }
  destruct (responses (connection s)) as [|r q] eqn:Hq.
  { intros [= <- <-]. right. right. auto. }
  cbn [response_heap with_connection].
  destruct (response_heap s !! r) as [R|] eqn:HR.
  2:{ exfalso. destruct Hwf as [Hv _]. rewrite Hq in Hv.
      apply Forall_cons in Hv as [Hv _]. apply lookup_ge_None in HR. lia. }
  pose proof (wf_on_failure _ _ _ Hwf HR) as [result Hfail].
  unfold bind at 1.
  match goal with |- context [handle hydrated R m ?s1] =>
    destruct (handle hydrated R m s1) as [o1 s2] eqn:Hh end.
  pose proof (handle_frame _ _ _ _ _ Hh) as (Hc & Ht & Hth & Hrh & Hres).
  simpl in Hc, Hrh.
  intros H. right. left. exists m, r, q.
  assert (Hm : forall md, m = FAILURE md -> o1 = Raises (CypherError md)).
  { intros md ->. simpl in Hh. rewrite Hfail in Hh. simpl in Hh.
    unfold Result_on_failure, raise in Hh. now injection Hh as <- _. }
  destruct o1 as [[]|e|].
  - destruct (is_summary m) eqn:Hsum.
    + unfold bind, set_complete, pop_response, modify in H.
      injection H as <- <-. simpl. rewrite Hc. simpl. rewrite Hq.
      repeat split; try reflexivity.
      * intros md Hmd. specialize (Hm _ Hmd). discriminate.
      * intros _. unfold is_complete. simpl. rewrite list_lookup_alter_eq.
        rewrite Hrh, HR. reflexivity.
    + unfold ret in H. injection H as <- <-. rewrite Hc. simpl. rewrite Hq.
      repeat split; try reflexivity; try discriminate.
      intros md Hmd. specialize (Hm _ Hmd). discriminate.
  - injection H as <- <-. rewrite Hc. simpl.
    repeat split; try reflexivity; try discriminate. exact Hm.
  - injection H as <- <-. rewrite Hc. simpl.
    repeat split; try reflexivity; try discriminate. exact Hm.
Qed.

(** The loop of [Session.run], on a response that is awaited: a failure
    taken off the link ends the loop, raised; and before the last message
    the loop takes, no more summaries have come than there are responses
    queued ahead of the awaited one. *)
Lemma fetch_loop_failure (fuel response : nat) (s : State) o s' :
  wf s ->
  response ∈ responses (connection s) \/ is_complete response s = true ->
  fetch_loop hydrated fuel response s = (o, s') ->
  exists consumed,
    incoming (connection s) = consumed ++ incoming (connection s')
    /\ (forall md, FAILURE md ∈ consumed ->
         o = Raises (CypherError md)
         /\ exists pre, consumed = pre ++ [FAILURE md] /\ no_failure pre)
    /\ (forall front back pre last,
         responses (connection s) = front ++ response :: back ->
         consumed = pre ++ [last] ->
         summaries pre <= length front).
Proof.
  revert s. induction fuel as [|fuel IH]; intros s Hwf Hin; simpl.
  - destruct (is_complete response s); intros [= <- <-]; exists [];
      (split; [reflexivity | split;
         [intros md Hmd; inversion Hmd
         | intros ? ? pre ? _ Hp; now destruct pre]]).
  - destruct (is_complete response s) eqn:Hcomp.
    { intros [= <- <-]; exists [];
        (split; [reflexivity | split;
           [intros md Hmd; inversion Hmd
           | intros ? ? pre ? _ Hp; now destruct pre]]). }
    destruct Hin as [Hin|Hin]; [|discriminate].
    unfold bind.
    destruct (Connection_fetch_next hydrated s) as [o1 s1] eqn:H1.
    pose proof (fetch_next_frame _ _ _ H1) as Hfr.
    pose proof (wf_frame _ _ Hfr Hwf) as Hwf1.
    apply fetch_next_step in H1; [|exact Hwf].
    destruct H1 as [[Hsame Ho]|[(m & r & q & Hinc & Hq & Hm & Hret)|[Hq _]]].
    + intros H. assert (o = o1 /\ s' = s1) as [-> ->].
      { destruct Ho as [-> | ->]; now injection H as <- <-. }
      exists []. split; [now rewrite Hsame|]. split.
      * intros md Hmd; inversion Hmd.
      * intros ? ? pre ? _ Hp; now destruct pre.
    + assert (Hone : forall o2 : Outcome unit,
                 (forall md, m = FAILURE md -> o2 = Raises (CypherError md)) ->
                 (forall md, FAILURE md ∈ [m] ->
                    o2 = Raises (CypherError md)
                    /\ exists pre, [m] = pre ++ [FAILURE md] /\ no_failure pre)
                 /\ (forall front back pre last,
                      responses (connection s) = front ++ response :: back ->
                      [m] = pre ++ [last] -> summaries pre <= length front)).
      { intros o2 Ho2. split.
        - intros md Hmd. apply list_elem_of_singleton in Hmd. subst m.
          split; [now apply Ho2|]. exists []. split; [reflexivity|].
          intros md' Hmd'. inversion Hmd'.
        - intros front back pre last _ Hp.
          destruct pre as [|x [|y pre]]; try discriminate. cbn. lia. }
      destruct o1 as [[]|e|].
      * destruct (Hret eq_refl) as [Hq1 Hc1].
        assert (Hnf : forall md, m <> FAILURE md).
        { intros md Hmd. specialize (Hm _ Hmd). discriminate. }
        intros H.
        assert (Hin1 : response ∈ responses (connection s1)
                       \/ is_complete response s1 = true).
        { rewrite Hq1. rewrite Hq in Hin.
          destruct (is_summary m) eqn:Hsum; [|left; exact Hin].
          apply elem_of_cons in Hin as [->|Hin]; [right; auto | left; exact Hin]. }
        pose proof H as Hloop.
        apply IH in H; [|exact Hwf1|exact Hin1].
        destruct H as (consumed & Hcons & Hfail & Hpos).
        exists (m :: consumed). split; [rewrite Hinc, Hcons; reflexivity|]. split.
        -- intros md Hmd. apply elem_of_cons in Hmd as [Hmd|Hmd].
           { symmetry in Hmd. now apply Hnf in Hmd. }
           destruct (Hfail _ Hmd) as (Ho & pre & Hpre & Hno).
           split; [exact Ho|]. exists (m :: pre). split; [now rewrite Hpre|].
           intros md' Hmd'. apply elem_of_cons in Hmd' as [Hmd'|Hmd'].
           { symmetry in Hmd'. now apply Hnf in Hmd'. }
           now apply Hno in Hmd'.
        -- intros front back pre last Hfront Hp.
           destruct pre as [|x pre]; [cbn; lia|].
           injection Hp as <- Hp.
           unfold summaries. rewrite filter_cons.
           destruct (is_summary m) eqn:Hsum.
           ++ rewrite decide_True by reflexivity. cbn [length].
              rewrite Hq in Hfront. destruct front as [|f front].
              ** injection Hfront as -> _.
                 exfalso. destruct fuel; simpl in Hloop;
                   rewrite (Hc1 eq_refl) in Hloop; injection Hloop as _ <-;
                   apply (f_equal length) in Hcons; rewrite Hp in Hcons;
                   rewrite !length_app in Hcons; simpl in Hcons; lia.
              ** injection Hfront as -> ->. simpl.
                 apply le_n_S. eapply (Hpos front back pre last); eauto.
           ++ rewrite decide_False by discriminate.
              eapply (Hpos front back pre last); [|exact Hp].
              rewrite Hq1, <- Hq. exact Hfront.
      * intros [= <- <-]. exists [m]. split; [rewrite Hinc; reflexivity|].
        now apply Hone.
      * intros [= <- <-]. exists [m]. split; [rewrite Hinc; reflexivity|].
        now apply Hone.
    + rewrite Hq in Hin. inversion Hin.
Qed.

(** A [FAILURE] that a call of [Session.run] takes off the link is the
    last message the call takes, and the call raises it. *)
Lemma Session_run_failure_last (statement : Statement)
    (p : option Parameters) (s : State) o s' :
  reachable hydrated s ->
  Session_run hydrated statement p s = (o, s') ->
  exists consumed,
    incoming (connection s) = consumed ++ incoming (connection s')
    /\ forall md, FAILURE md ∈ consumed ->
         o = Raises (CypherError md)
         /\ exists pre,
              consumed = pre ++ [FAILURE md] /\ no_failure pre
              /\ summaries pre <= S (length (responses (connection s))).
Proof.
  intros Hr. apply reachable_Inv in Hr as [Hwf _].
  rewrite Session_run_unfold.
  destruct (statement_text statement) as [t|e|].
  2,3: intros [= <- <-]; exists []; split;
       [reflexivity | intros md Hmd; inversion Hmd].
  destruct (released (connection s)) eqn:Hrel.
  { intros [= <- <-]; exists []; split;
      [reflexivity | intros md Hmd; inversion Hmd]. }
  unfold fetch_until_complete.
  match goal with |- context [fetch_loop hydrated ?f ?r ?s1] =>
    destruct (fetch_loop hydrated f r s1) as [o1 s2] eqn:Hloop end.
  apply fetch_loop_failure in Hloop.
  - destruct Hloop as (consumed & Hcons & Hfail & Hpos). simpl in Hcons.
    intros H. exists consumed.
    assert (Hs : incoming (connection s') = incoming (connection s2)).
    { destruct o1 as [[]|e|]; injection H as <- <-; reflexivity. }
    split; [now rewrite Hs|].
    intros md Hmd. destruct (Hfail _ Hmd) as (-> & pre & Hpre & Hno).
    injection H as <- <-. split; [reflexivity|].
    exists pre. split; [exact Hpre|]. split; [exact Hno|].
    specialize (Hpos (responses (connection s) ++ [length (response_heap s)])
                     [] pre (FAILURE md)).
    rewrite length_app in Hpos. simpl in Hpos. rewrite Nat.add_1_r in Hpos.
    apply Hpos; [|exact Hpre].
    now rewrite <- app_assoc.
  - apply (wf_prepared t (default [] p)) in Hwf. exact Hwf.
  - left. simpl. apply elem_of_app. right. apply elem_of_cons. right.
    apply elem_of_cons. now left.
Qed.

(** *** Eager results *)

(** One message handed to the response at the head of the queue. *)
Lemma fetch_next_dispatch (s : State) m rest r q R :
  released (connection s) = false ->
  incoming (connection s) = m :: rest ->
  responses (connection s) = r :: q ->
  response_heap s !! r = Some R ->
  Connection_fetch_next hydrated s
  = (handle hydrated R m ;;
     if is_summary m then (set_complete r ;; pop_response) else ret tt)
      (with_connection (fun c =>
         mkConnection (outgoing c) (sent c) rest (responses c) (released c)
                      (events c))
         (with_connection (log_event EvFetch) s)).
Proof.
  intros Hrel Hinc Hq HR. unfold Connection_fetch_next.
  cbn [connection with_connection log_event released incoming responses
       response_heap].
  now rewrite Hrel, Hinc, Hq, HR.
Qed.

Lemma fetch_loop_complete (fuel response : nat) (s : State) :
  is_complete response s = true ->
  fetch_loop hydrated fuel response s = (Returns tt, s).
Proof. intros H. destruct fuel; simpl; now rewrite H. Qed.

Lemma fetch_loop_S (fuel response : nat) (s : State) :
  fetch_loop hydrated (S fuel) response s
  = if is_complete response s then (Returns tt, s)
    else (Connection_fetch_next hydrated ;; fetch_loop hydrated fuel response) s.
Proof. reflexivity. Qed.

(** The loop on the [PULL_ALL] response: it takes the records, then the
    summary, and only then ends. *)
Lemma fetch_loop_stream (rows : list (list Value)) (footer : Metadata)
    (rest : list ServerMessage) (r2 result : nat) (q : list nat)
    (hf : MetadataHandler) (ks : option (list string)) :
  forall (fuel : nat) (s : State) (recs : list RecordObj),
    released (connection s) = false ->
    incoming (connection s) = map RECORD rows ++ SUCCESS footer :: rest ->
    responses (connection s) = r2 :: q ->
    response_heap s !! r2
      = Some (mkResponse false (RH_Result_on_record result)
                         (MH_Result_on_footer result) hf) ->
    result_heap s !! result = Some (mkResult ks recs) ->
    length rows < fuel ->
    exists s',
      fetch_loop hydrated fuel r2 s = (Returns tt, s')
      /\ incoming (connection s') = rest
      /\ result_heap s' !! result
         = Some (mkResult ks (recs ++ map (record_of hydrated ks) rows))
      /\ is_complete r2 s' = true
      /\ responses (connection s') = q.
Proof.
  induction rows as [|row rows IH]; intros fuel s recs Hrel Hinc Hq HR Hres Hfuel.
  - destruct fuel as [|fuel]; [simpl in Hfuel; lia|].
    simpl in Hinc. cbn [fetch_loop]. unfold is_complete at 1. rewrite HR.
    cbn [complete]. unfold bind at 1.
    rewrite (fetch_next_dispatch _ _ _ _ _ _ Hrel Hinc Hq HR).
    cbv [handle on_success call_metadata_handler Result_on_footer is_summary
         bind ret set_complete pop_response modify].
    eexists. split; [apply fetch_loop_complete|].
    + unfold is_complete. simpl. rewrite list_lookup_alter_eq, HR. reflexivity.
    + simpl. rewrite Hq, Hres, app_nil_r. simpl.
      unfold is_complete. simpl. rewrite list_lookup_alter_eq, HR. auto.
  - destruct fuel as [|fuel]; [simpl in Hfuel; lia|].
    simpl in Hinc. cbn [fetch_loop]. unfold is_complete at 1. rewrite HR.
    cbn [complete]. unfold bind at 1.
    rewrite (fetch_next_dispatch _ _ _ _ _ _ Hrel Hinc Hq HR).
    cbv [handle on_record call_record_handler Result_on_record is_summary
         bind ret modify].
    match goal with |- context [fetch_loop hydrated fuel r2 ?s1] =>
      destruct (IH fuel s1 (recs ++ [record_of hydrated ks row]))
        as (s' & Hloop & H1 & H2 & H3 & H4) end.
    + exact Hrel.
    + reflexivity.
    + exact Hq.
    + exact HR.
    + simpl. rewrite list_lookup_alter_eq, Hres. reflexivity.
    + simpl in Hfuel. lia.
    + exists s'. rewrite Hloop. split; [reflexivity|].
      rewrite <- app_assoc in H2. auto.
Qed.

(** Without the summary the loop never ends. *)
Lemma fetch_loop_starves (rows : list (list Value)) (r2 result : nat)
    (q : list nat) (hf : MetadataHandler) :
  forall (fuel : nat) (s : State),
    released (connection s) = false ->
    incoming (connection s) = map RECORD rows ->
    responses (connection s) = r2 :: q ->
    response_heap s !! r2
      = Some (mkResponse false (RH_Result_on_record result)
                         (MH_Result_on_footer result) hf) ->
    exists s', fetch_loop hydrated fuel r2 s = (Blocks, s').
Proof.
  induction rows as [|row rows IH]; intros fuel s Hrel Hinc Hq HR.
  - destruct fuel as [|fuel]; cbn [fetch_loop]; unfold is_complete at 1;
      rewrite HR; cbn [complete]; [eauto|].
    unfold bind, Connection_fetch_next.
    cbn [connection with_connection log_event released incoming].
    rewrite Hrel, Hinc. eauto.
  - destruct fuel as [|fuel]; cbn [fetch_loop]; unfold is_complete at 1;
      rewrite HR; cbn [complete]; [eauto|].
    unfold bind at 1.
    rewrite (fetch_next_dispatch _ _ _ _ _ _ Hrel Hinc Hq HR).
    cbv [handle on_record call_record_handler Result_on_record is_summary
         bind ret modify].
    apply IH; try assumption. reflexivity.
Qed.

Lemma lookup_second {A : Type} (l : list A) (x y : A) :
  (l ++ [x; y]) !! S (length l) = Some y.
Proof. induction l as [|a l IH]; [reflexivity | exact IH]. Qed.

(** The state in which the loop of [Session.run] starts, on a connection
    with no response pending, once the answer to [RUN] has been taken. *)
Lemma Session_run_header (t : Text) (p : Parameters) (s : State)
    (header : Metadata) (ks : list string) (more : list ServerMessage) :
  released (connection s) = false ->
  responses (connection s) = [] ->
  incoming (connection s) = SUCCESS header :: more ->
  md_fields header = Some ks ->
  exists s2,
    Connection_fetch_next hydrated (flushed (prepared t p s)) = (Returns tt, s2)
    /\ released (connection s2) = false
    /\ incoming (connection s2) = more
    /\ responses (connection s2) = [S (length (response_heap s))]
    /\ response_heap s2 !! S (length (response_heap s))
       = Some (mkResponse false (RH_Result_on_record (length (result_heap s)))
                 (MH_Result_on_footer (length (result_heap s)))
                 (MH_Result_on_failure (length (result_heap s))))
    /\ result_heap s2 !! length (result_heap s) = Some (mkResult (Some ks) []).
Proof.
  intros Hrel Hq Hinc Hks.
  rewrite (fetch_next_dispatch (flushed (prepared t p s)) (SUCCESS header) more
             (length (response_heap s)) [S (length (response_heap s))]
             (mkResponse false RH_default
                (MH_Result_on_header (length (result_heap s)))
                (MH_Result_on_failure (length (result_heap s))))).
  - cbv [handle on_success call_metadata_handler Result_on_header is_summary
         bind ret set_complete pop_response modify].
    rewrite Hks. eexists. split; [reflexivity|]. simpl.
    rewrite Hq. simpl.
    split; [exact Hrel|]. split; [reflexivity|]. split; [reflexivity|]. split.
    + rewrite list_lookup_alter_ne by lia. apply lookup_second.
    + rewrite list_lookup_alter_eq, list_lookup_middle by reflexivity.
      reflexivity.
  - exact Hrel.
  - simpl. exact Hinc.
  - simpl. rewrite Hq. reflexivity.
  - simpl. apply list_lookup_middle. reflexivity.
Qed.

(** [Session.run] on a connection with no response pending, when the
    server answers [RUN] with a header and [PULL_ALL] with records and a
    summary. *)
Lemma Session_run_stream (statement : Statement) (p : option Parameters)
    (t : Text) (s : State) (header footer : Metadata) (ks : list string)
    (rows : list (list Value)) (rest : list ServerMessage) :
  statement_text statement = Returns t ->
  released (connection s) = false ->
  responses (connection s) = [] ->
  md_fields header = Some ks ->
  incoming (connection s)
    = SUCCESS header :: map RECORD rows ++ SUCCESS footer :: rest ->
  exists s',
    Session_run hydrated statement p s = (Returns (length (result_heap s)), s')
    /\ incoming (connection s') = rest
    /\ result_heap s' !! length (result_heap s)
       = Some (mkResult (Some ks) (map (record_of hydrated (Some ks)) rows)).
Proof.
  intros Ht Hrel Hq Hks Hinc.
  rewrite Session_run_unfold, Ht, Hrel. unfold fetch_until_complete.
  destruct (Session_run_header t (default [] p) s header ks _ Hrel Hq Hinc Hks)
    as (s2 & Hstep & Hrel2 & Hinc2 & Hq2 & HR2 & Hres2).
  cbn [flushed prepared with_connection connection incoming].
  rewrite Hinc, fetch_loop_S.
  unfold is_complete at 1.
  replace (response_heap (flushed (prepared t (default [] p) s))
             !! S (length (response_heap s)))
    with (Some (mkResponse false (RH_Result_on_record (length (result_heap s)))
               (MH_Result_on_footer (length (result_heap s)))
               (MH_Result_on_failure (length (result_heap s))))).
  2:{ simpl. symmetry. apply lookup_second. }
  cbn [complete]. unfold bind at 1. rewrite Hstep.
  match goal with |- context [fetch_loop hydrated ?f _ s2] =>
    destruct (fetch_loop_stream rows footer rest _ _ _ _ _ f s2 []
                Hrel2 Hinc2 Hq2 HR2 Hres2)
      as (s3 & Hloop & Hinc3 & Hres3 & _) end.
  { simpl. rewrite length_app, length_map. simpl. lia. }
  rewrite Hloop. eexists. split; [reflexivity|]. simpl. auto.
Qed.

(** The same call when the summary of [PULL_ALL] does not come. *)
Lemma Session_run_starved (statement : Statement) (p : option Parameters)
    (t : Text) (s : State) (header : Metadata) (ks : list string)
    (rows : list (list Value)) :
  statement_text statement = Returns t ->
  released (connection s) = false ->
  responses (connection s) = [] ->
  md_fields header = Some ks ->
  incoming (connection s) = SUCCESS header :: map RECORD rows ->
  exists s', Session_run hydrated statement p s = (Blocks, s').
Proof.
  intros Ht Hrel Hq Hks Hinc.
  rewrite Session_run_unfold, Ht, Hrel. unfold fetch_until_complete.
  destruct (Session_run_header t (default [] p) s header ks _ Hrel Hq Hinc Hks)
    as (s2 & Hstep & Hrel2 & Hinc2 & Hq2 & HR2 & Hres2).
  cbn [flushed prepared with_connection connection incoming].
  rewrite Hinc, fetch_loop_S.
  unfold is_complete at 1.
  replace (response_heap (flushed (prepared t (default [] p) s))
             !! S (length (response_heap s)))
    with (Some (mkResponse false (RH_Result_on_record (length (result_heap s)))
               (MH_Result_on_footer (length (result_heap s)))
               (MH_Result_on_failure (length (result_heap s))))).
  2:{ simpl. symmetry. apply lookup_second. }
  cbn [complete]. unfold bind at 1. rewrite Hstep.
  match goal with |- context [fetch_loop hydrated ?f _ s2] =>
    destruct (fetch_loop_starves rows _ _ _ _ f s2 Hrel2 Hinc2 Hq2 HR2)
      as (s3 & Hloop) end.
  rewrite Hloop. eauto.
Qed.

(** C4 (as amended): [Session.run] is eager.  On a connection with no
    response pending, when the server answers [RUN] with a header and
    [PULL_ALL] with records and a summary, the call returns once it has
    taken all of them off the link, and the result it returns holds one
    record per [RECORD] message, in order; as long as the summary has not
    come, the call does not return. *)
Theorem Session_run_is_eager (statement : Statement) (p : option Parameters)
    (t : Text) (s : State) (header footer : Metadata) (ks : list string)
    (rows : list (list Value)) (rest : list ServerMessage) :
  statement_text statement = Returns t ->
  released (connection s) = false ->
  responses (connection s) = [] ->
  md_fields header = Some ks ->
  (incoming (connection s)
     = SUCCESS header :: map RECORD rows ++ SUCCESS footer :: rest ->
   exists s',
     Session_run hydrated statement p s = (Returns (length (result_heap s)), s')
     /\ incoming (connection s') = rest
     /\ result_heap s' !! length (result_heap s)
        = Some (mkResult (Some ks) (map (record_of hydrated (Some ks)) rows)))
  /\ (incoming (connection s) = SUCCESS header :: map RECORD rows ->
      exists s', Session_run hydrated statement p s = (Blocks, s')).
Proof.
  intros Ht Hrel Hq Hks. split; intros Hinc.
  - eapply Session_run_stream; eauto.
  - eapply Session_run_starved; eauto.
Qed.

(** *** Failures reach the caller *)

(** The loop on the [PULL_ALL] response when the stream of records ends
    in a [FAILURE]. *)
Lemma fetch_loop_stream_failure (rows : list (list Value)) (md : Metadata)
    (rest : list ServerMessage) (r2 result : nat) (q : list nat)
    (hs : MetadataHandler) (ks : option (list string)) :
  forall (fuel : nat) (s : State) (recs : list RecordObj),
    released (connection s) = false ->
    incoming (connection s) = map RECORD rows ++ FAILURE md :: rest ->
    responses (connection s) = r2 :: q ->
    response_heap s !! r2
      = Some (mkResponse false (RH_Result_on_record result) hs
                         (MH_Result_on_failure result)) ->
    result_heap s !! result = Some (mkResult ks recs) ->
    length rows < fuel ->
    exists s',
      fetch_loop hydrated fuel r2 s = (Raises (CypherError md), s')
      /\ incoming (connection s') = rest
      /\ result_heap s' !! result
         = Some (mkResult ks (recs ++ map (record_of hydrated ks) rows)).
Proof.
  induction rows as [|row rows IH]; intros fuel s recs Hrel Hinc Hq HR Hres Hfuel.
  - destruct fuel as [|fuel]; [simpl in Hfuel; lia|].
    simpl in Hinc. cbn [fetch_loop]. unfold is_complete at 1. rewrite HR.
    cbn [complete]. unfold bind at 1.
    rewrite (fetch_next_dispatch _ _ _ _ _ _ Hrel Hinc Hq HR).
    cbv [handle on_failure call_metadata_handler Result_on_failure is_summary
         bind raise].
    eexists. split; [reflexivity|]. simpl. rewrite Hres, app_nil_r. auto.
  - destruct fuel as [|fuel]; [simpl in Hfuel; lia|].
    simpl in Hinc. cbn [fetch_loop]. unfold is_complete at 1. rewrite HR.
    cbn [complete]. unfold bind at 1.
    rewrite (fetch_next_dispatch _ _ _ _ _ _ Hrel Hinc Hq HR).
    cbv [handle on_record call_record_handler Result_on_record is_summary
         bind ret modify].
    match goal with |- context [fetch_loop hydrated fuel r2 ?s1] =>
      destruct (IH fuel s1 (recs ++ [record_of hydrated ks row]))
        as (s' & Hloop & H1 & H2) end.
    + exact Hrel.
    + reflexivity.
    + exact Hq.
    + exact HR.
    + simpl. rewrite list_lookup_alter_eq, Hres. reflexivity.
    + simpl in Hfuel. lia.
    + exists s'. rewrite Hloop. split; [reflexivity|].
      rewrite <- app_assoc in H2. auto.
Qed.

(** A [FAILURE] in answer to [RUN]. *)
Lemma Session_run_failure_of_RUN (statement : Statement)
    (p : option Parameters) (t : Text) (s : State) (md : Metadata)
    (rest : list ServerMessage) :
  statement_text statement = Returns t ->
  released (connection s) = false ->
  responses (connection s) = [] ->
  incoming (connection s) = FAILURE md :: rest ->
  exists s',
    Session_run hydrated statement p s = (Raises (CypherError md), s')
    /\ incoming (connection s') = rest.
Proof.
  intros Ht Hrel Hq Hinc.
  rewrite Session_run_unfold, Ht, Hrel. unfold fetch_until_complete.
  cbn [flushed prepared with_connection connection incoming].
  rewrite Hinc, fetch_loop_S.
  unfold is_complete at 1.
  replace (response_heap (flushed (prepared t (default [] p) s))
             !! S (length (response_heap s)))
    with (Some (mkResponse false (RH_Result_on_record (length (result_heap s)))
               (MH_Result_on_footer (length (result_heap s)))
               (MH_Result_on_failure (length (result_heap s))))).
  2:{ simpl. symmetry. apply lookup_second. }
  cbn [complete]. unfold bind at 1.
  rewrite (fetch_next_dispatch (flushed (prepared t (default [] p) s))
             (FAILURE md) rest
             (length (response_heap s)) [S (length (response_heap s))]
             (mkResponse false RH_default
                (MH_Result_on_header (length (result_heap s)))
                (MH_Result_on_failure (length (result_heap s))))).
  - cbv [handle on_failure call_metadata_handler Result_on_failure is_summary
         bind raise].
    eexists. split; reflexivity.
  - exact Hrel.
  - simpl. exact Hinc.
  - simpl. rewrite Hq. reflexivity.
  - simpl. apply list_lookup_middle. reflexivity.
Qed.

(** A [FAILURE] in answer to [PULL_ALL], after the header and any number
    of records. *)
Lemma Session_run_failure_of_PULL_ALL (statement : Statement)
    (p : option Parameters) (t : Text) (s : State) (header md : Metadata)
    (ks : list string) (rows : list (list Value)) (rest : list ServerMessage) :
  statement_text statement = Returns t ->
  released (connection s) = false ->
  responses (connection s) = [] ->
  md_fields header = Some ks ->
  incoming (connection s)
    = SUCCESS header :: map RECORD rows ++ FAILURE md :: rest ->
  exists s',
    Session_run hydrated statement p s = (Raises (CypherError md), s')
    /\ incoming (connection s') = rest.
Proof.
  intros Ht Hrel Hq Hks Hinc.
  rewrite Session_run_unfold, Ht, Hrel. unfold fetch_until_complete.
  destruct (Session_run_header t (default [] p) s header ks _
              Hrel Hq Hinc Hks)
    as (s2 & Hstep & Hrel2 & Hinc2 & Hq2 & HR2 & Hres2).
  cbn [flushed prepared with_connection connection incoming].
  rewrite Hinc, fetch_loop_S.
  unfold is_complete at 1.
  replace (response_heap (flushed (prepared t (default [] p) s))
             !! S (length (response_heap s)))
    with (Some (mkResponse false (RH_Result_on_record (length (result_heap s)))
               (MH_Result_on_footer (length (result_heap s)))
               (MH_Result_on_failure (length (result_heap s))))).
  2:{ simpl. symmetry. apply lookup_second. }
  cbn [complete]. unfold bind at 1. rewrite Hstep.
  match goal with |- context [fetch_loop hydrated ?f _ s2] =>
    destruct (fetch_loop_stream_failure rows md rest _ _ _ _ _ f s2 []
                Hrel2 Hinc2 Hq2 HR2 Hres2)
      as (s3 & Hloop & Hinc3 & _) end.
  { simpl. rewrite length_app, length_map. simpl. lia. }
  rewrite Hloop. eexists. split; [reflexivity | exact Hinc3].
Qed.

(** C7: a [FAILURE] that answers a call of [Session.run] is raised to the
    caller of that call as [CypherError] with the metadata the server
    sent, and it is then off the link, so that no later call raises it
    again: when it answers [RUN], and when it answers [PULL_ALL] after the
    header and any number of records.  And in whatever state the program
    has reached, none is swallowed: a [FAILURE] that a call takes off the
    link is the last message that call takes, and the call raises it. *)
Theorem Session_run_raises_failure (statement : Statement)
    (p : option Parameters) (s : State) :
  reachable hydrated s ->
  (forall t md rest,
      statement_text statement = Returns t ->
      released (connection s) = false ->
      responses (connection s) = [] ->
      incoming (connection s) = FAILURE md :: rest ->
      exists s',
        Session_run hydrated statement p s = (Raises (CypherError md), s')
        /\ incoming (connection s') = rest)
  /\ (forall t header ks rows md rest,
        statement_text statement = Returns t ->
        released (connection s) = false ->
        responses (connection s) = [] ->
        md_fields header = Some ks ->
        incoming (connection s)
          = SUCCESS header :: map RECORD rows ++ FAILURE md :: rest ->
        exists s',
          Session_run hydrated statement p s = (Raises (CypherError md), s')
          /\ incoming (connection s') = rest)
  /\ (forall o s',
        Session_run hydrated statement p s = (o, s') ->
        exists consumed,
          incoming (connection s) = consumed ++ incoming (connection s')
          /\ forall md, FAILURE md ∈ consumed ->
               o = Raises (CypherError md)
               /\ exists pre,
                    consumed = pre ++ [FAILURE md] /\ no_failure pre
                    /\ summaries pre <= S (length (responses (connection s)))).
Proof.
  intros Hr. split; [|split].
  - intros t md rest. apply Session_run_failure_of_RUN.
  - intros t header ks rows md rest. apply Session_run_failure_of_PULL_ALL.
  - intros o s'. now apply Session_run_failure_last.
Qed.

(** *** Closing a session *)

(** C5 (as amended): [Session.close], and [Session.__exit__] with it,
    releases the connection and does nothing else: no message is queued or
    sent, so an open transaction is not committed, and it is not rolled
    back by the client either; the transaction and the session's slot stay
    as they were. *)
Theorem Session_close_releases (s : State) :
  exists s',
    Session_close s = (Returns tt, s')
    /\ Session___exit__ s = (Returns tt, s')
    /\ released (connection s') = true
    /\ sent (connection s') = sent (connection s)
    /\ outgoing (connection s') = outgoing (connection s)
    /\ events (connection s') = events (connection s) ++ [EvClose]
    /\ transaction s' = transaction s
    /\ transaction_heap s' = transaction_heap s.
Proof. eexists. repeat split. Qed.

(** *** Closing a transaction *)

Lemma Transaction_close_effect (tx : nat) (s : State) o s' :
  get_closed tx s = false ->
  Transaction_close hydrated tx s = (o, s') ->
  (released (connection s) = false ->
   sent (connection s')
   = sent (connection s) ++ outgoing (connection s)
     ++ [RUN (end_statement (get_success tx s)) []; PULL_ALL]
   /\ outgoing (connection s') = [])
  /\ released (connection s') = released (connection s)
  /\ get_success tx s' = get_success tx s
  /\ length (transaction_heap s') = length (transaction_heap s)
  /\ (o = Returns tt ->
      get_closed tx s' = (if decide (tx < length (transaction_heap s))
                          then true else false)
      /\ transaction s' = None)
  /\ (o <> Returns tt ->
      transaction s' = transaction s
      /\ transaction_heap s' = transaction_heap s).
Proof.
  intros Hc. unfold Transaction_close. rewrite Hc. unfold bind at 1.
  set (statement := if get_success tx s then COMMIT else ROLLBACK).
  replace (if get_success tx s
           then Session_run hydrated COMMIT None
           else Session_run hydrated ROLLBACK None)
    with (Session_run hydrated statement None)
    by (unfold statement; now destruct (get_success tx s)).
  assert (Ht : statement_text statement
               = Returns (end_statement (get_success tx s))).
  { unfold statement, end_statement. now destruct (get_success tx s). }
  destruct (Session_run hydrated statement None s) as [o1 s1] eqn:Hrun.
  pose proof (Session_run_trace _ _ _ _ _ _ Ht Hrun) as [_ Hsent].
  pose proof (Session_run_effect _ _ _ _ _ Hrun) as (Hslot & Hheap & Hrel & _).
  simpl in Hsent.
  destruct o1 as [result|e|].
  - unfold bind, set_closed, modify. intros [= <- <-]. simpl.
    split; [exact Hsent|]. split; [exact Hrel|]. split.
    { unfold get_success. simpl. rewrite Hheap.
      destruct (decide (tx < length (transaction_heap s))) as [Hlt|Hge].
      - rewrite list_lookup_alter_eq.
        destruct (transaction_heap s !! tx); reflexivity.
      - rewrite list_lookup_alter_eq.
        destruct (transaction_heap s !! tx); reflexivity. }
    split; [now rewrite length_alter, Hheap|]. split.
    + intros _. split; [|reflexivity]. unfold get_closed. simpl.
      rewrite list_lookup_alter_eq, Hheap.
      destruct (decide (tx < length (transaction_heap s))) as [Hlt|Hge].
      * destruct (lookup_lt_is_Some_2 _ _ Hlt) as [t ->]. reflexivity.
      * rewrite lookup_ge_None_2 by lia. reflexivity.
    + intros Hne. now contradiction Hne.
  - intros [= <- <-].
    split; [exact Hsent|]. split; [exact Hrel|]. split.
    { unfold get_success. now rewrite Hheap. }
    split; [now rewrite Hheap|]. split; [discriminate|auto].
  - intros [= <- <-].
    split; [exact Hsent|]. split; [exact Hrel|]. split.
    { unfold get_success. now rewrite Hheap. }
    split; [now rewrite Hheap|]. split; [discriminate|auto].
Qed.

(** C10 (as amended): when [close] is called on a transaction that is not
    closed and the statement it runs, [COMMIT] or [ROLLBACK] as [success]
    says, completes without raising, the transaction is closed and the
    session's slot is empty: the assertion of [new_transaction] holds
    again, and [run] on the closed transaction is refused. *)
Theorem Transaction_close_resets (tx : nat) (t : Transaction) (s s' : State) :
  transaction_heap s !! tx = Some t ->
  closed t = false ->
  Transaction_close hydrated tx s = (Returns tt, s') ->
  get_closed tx s' = true
  /\ transaction s' = None
  /\ (released (connection s) = false ->
      sent (connection s')
      = sent (connection s) ++ outgoing (connection s)
        ++ [RUN (end_statement (success t)) []; PULL_ALL])
  /\ (forall statement p,
        Transaction_run hydrated tx statement p s' = (Raises AssertionError, s'))
  /\ Session_new_transaction hydrated s'
     = (do tx' <- Transaction___init__ hydrated;
        modify (with_transaction (Some tx')) ;; ret tx') s'.
Proof.
  intros Hl Hc Hclose.
  assert (Hgc : get_closed tx s = false) by (unfold get_closed; now rewrite Hl).
  assert (Hgs : get_success tx s = success t)
    by (unfold get_success; now rewrite Hl).
  destruct (Transaction_close_effect _ _ _ _ Hgc Hclose)
    as (Hsent & _ & _ & _ & Hret & _).
  destruct (Hret eq_refl) as [Hclosed Hslot].
  rewrite decide_True in Hclosed by (eapply lookup_lt_Some; eauto).
  split; [exact Hclosed|]. split; [exact Hslot|]. split.
  { intros Hrel. rewrite <- Hgs. now apply Hsent. }
  split.
  - intros statement p. unfold Transaction_run. now rewrite Hclosed.
  - unfold Session_new_transaction. now rewrite Hslot.
Qed.

(** *** The [with] statement *)

Lemma exec_command_body_inv (tx : nat) (sent0 : list Message) (c : Command) :
  leaves_open c = true -> plain c = true ->
  preserves (body_inv tx sent0) (exec_command hydrated tx c).
Proof.
  intros Hopen Hplain s o s' H (Hc & Hv & Hrel & Hout & d & Hsent & Hd).
  destruct c; try discriminate; simpl in H.
  - unfold bind, Transaction_run in H. rewrite Hc in H.
    destruct (Session_run hydrated statement parameters s) as [o1 s1] eqn:Hrun.
    assert (s' = s1) as -> by (destruct o1; now injection H as _ <-).
    pose proof (Session_run_effect _ _ _ _ _ Hrun) as (_ & Hheap & Hrel1 & _).
    simpl in Hplain.
    destruct (statement_text statement) as [t|e|] eqn:Ht.
    + pose proof (Session_run_trace _ _ _ _ _ _ Ht Hrun) as [_ Hs].
      destruct (Hs Hrel) as [Hsent1 Hout1].
      split; [unfold get_closed in *; now rewrite Hheap|].
      split; [now rewrite Hheap|]. split; [congruence|].
      split; [exact Hout1|].
      exists (d ++ [RUN t (default [] parameters); PULL_ALL]). split.
      * rewrite Hsent1, Hsent, Hout. simpl. now rewrite <- app_assoc.
      * rewrite List.filter_app, Hd. simpl.
        apply negb_true_iff in Hplain. now rewrite Hplain.
    + rewrite Session_run_unfold, Ht in Hrun. injection Hrun as _ <-.
      repeat split; eauto.
    + rewrite Session_run_unfold, Ht in Hrun. injection Hrun as _ <-.
      repeat split; eauto.
  - unfold set_success, modify in H. injection H as _ <-. simpl.
    split.
    { unfold get_closed in *. simpl. rewrite list_lookup_alter_eq.
      destruct (transaction_heap s !! tx); [exact Hc | reflexivity]. }
    split; [simpl; now rewrite length_alter|]. eauto.
  - injection H as _ <-. repeat split; eauto.
  - injection H as _ <-. repeat split; eauto.
Qed.

Lemma exec_body_body_inv (tx : nat) (sent0 : list Message) (body : list Command) :
  forallb leaves_open body = true -> forallb plain body = true ->
  preserves (body_inv tx sent0) (exec_body hydrated tx body).
Proof.
  induction body as [|c body IH]; simpl; [intros _ _; apply preserves_ret|].
  intros Ho Hp. apply andb_true_iff in Ho as [Ho1 Ho2].
  apply andb_true_iff in Hp as [Hp1 Hp2].
  destruct c; try discriminate; try apply preserves_ret;
    (apply preserves_bind;
     [now apply exec_command_body_inv | intros ?; now apply IH]).
Qed.

(** Once the transaction is closed, nothing a body does reaches the
    connection. *)
Lemma exec_command_closed (tx : nat) (c : Command) (s : State) o s' :
  get_closed tx s = true ->
  exec_command hydrated tx c s = (o, s') ->
  connection s' = connection s /\ transaction s' = transaction s
  /\ get_closed tx s' = true
  /\ (match c with
      | Run _ _ | Commit | Rollback | Close => o = Raises AssertionError
      | _ => True
      end).
Proof.
  intros Hc. destruct c; simpl.
  - unfold bind, Transaction_run. rewrite Hc. intros [= <- <-]. auto.
  - unfold set_success, modify. intros [= <- <-]. simpl.
    split; [reflexivity|]. split; [reflexivity|]. split; [|exact I].
    unfold get_closed in *. simpl. rewrite list_lookup_alter_eq.
    destruct (transaction_heap s !! tx); [exact Hc | discriminate].
  - unfold Transaction_commit, bind, set_success, modify, Transaction_close.
    replace (get_closed tx _) with true.
    + intros [= <- <-]. simpl. split; [reflexivity|]. split; [reflexivity|].
      split; [|reflexivity].
      unfold get_closed in *. simpl. rewrite list_lookup_alter_eq.
      destruct (transaction_heap s !! tx); [exact Hc | discriminate].
    + unfold get_closed in *. simpl. rewrite list_lookup_alter_eq.
      destruct (transaction_heap s !! tx); [now symmetry | discriminate].
  - unfold Transaction_rollback, bind, set_success, modify, Transaction_close.
    replace (get_closed tx _) with true.
    + intros [= <- <-]. simpl. split; [reflexivity|]. split; [reflexivity|].
      split; [|reflexivity].
      unfold get_closed in *. simpl. rewrite list_lookup_alter_eq.
      destruct (transaction_heap s !! tx); [exact Hc | discriminate].
    + unfold get_closed in *. simpl. rewrite list_lookup_alter_eq.
      destruct (transaction_heap s !! tx); [now symmetry | discriminate].
  - unfold Transaction_close. rewrite Hc. intros [= <- <-]. auto.
  - intros [= <- <-]. auto.
  - intros [= <- <-]. auto.
Qed.

Lemma exec_body_closed (tx : nat) (body : list Command) (s : State) o s' :
  get_closed tx s = true ->
  exec_body hydrated tx body s = (o, s') ->
  connection s' = connection s /\ transaction s' = transaction s
  /\ get_closed tx s' = true /\ o <> Blocks.
Proof.
  revert s. induction body as [|c body IH]; intros s Hc; simpl.
  - intros [= <- <-]. repeat split; auto; discriminate.
  - assert (Hstep : (exec_command hydrated tx c ;; exec_body hydrated tx body) s
                    = (o, s') ->
                    connection s' = connection s /\ transaction s' = transaction s
                    /\ get_closed tx s' = true /\ o <> Blocks).
    { unfold bind.
      destruct (exec_command hydrated tx c s) as [o1 s1] eqn:E.
      pose proof (exec_command_closed _ _ _ _ _ Hc E) as (H1 & H2 & H3 & H4).
      destruct o1 as [[]|e|].
      - intros H. apply IH in H; [|exact H3].
        destruct H as (K1 & K2 & K3 & K4). repeat split; congruence.
      - intros [= <- <-]. repeat split; auto; discriminate.
      - intros [= <- <-]. exfalso.
        destruct c; simpl in E; try discriminate;
          unfold bind, Transaction_run, Transaction_commit, Transaction_rollback,
            Transaction_close, set_success, modify, raise, ret in E;
          try (rewrite Hc in E); try discriminate. }
    destruct c; try exact Hstep.
    intros [= <- <-]. repeat split; auto; discriminate.
Qed.

(** [success] is assigned, then [close] runs. *)
Lemma Transaction_finish_effect (tx : nat) (b : bool) (t : Transaction)
    (s : State) o s' :
  transaction_heap s !! tx = Some t ->
  closed t = false ->
  released (connection s) = false ->
  (set_success tx b ;; Transaction_close hydrated tx) s = (o, s') ->
  get_success tx s' = b
  /\ sent (connection s')
     = sent (connection s) ++ outgoing (connection s)
       ++ [RUN (end_statement b) []; PULL_ALL]
  /\ (o = Returns tt -> get_closed tx s' = true /\ transaction s' = None)
  /\ (o <> Returns tt -> get_closed tx s' = false
                         /\ transaction s' = transaction s).
Proof.
  intros Hl Hc Hrel Hrb.
  unfold bind, set_success, modify in Hrb.
  match type of Hrb with Transaction_close _ _ ?s0 = _ =>
    set (s1 := s0) in * end.
  assert (Hc1 : get_closed tx s1 = false).
  { unfold get_closed, s1. simpl. rewrite list_lookup_alter_eq, Hl. exact Hc. }
  assert (Hs1 : get_success tx s1 = b).
  { unfold get_success, s1. simpl. now rewrite list_lookup_alter_eq, Hl. }
  destruct (Transaction_close_effect _ _ _ _ Hc1 Hrb)
    as (Hsent & _ & Hsucc & _ & Hret & Hexc).
  split; [congruence|]. split.
  { destruct (Hsent Hrel) as [Hsent1 _]. rewrite Hs1 in Hsent1. exact Hsent1. }
  split.
  - intros ->. destruct (Hret eq_refl) as [Hclosed Hslot].
    rewrite decide_True in Hclosed.
    + auto.
    + unfold s1. simpl. rewrite length_alter. eapply lookup_lt_Some; eauto.
  - intros Hne. destruct (Hexc Hne) as [Hslot Hheap]. split; [|exact Hslot].
    unfold get_closed. rewrite Hheap. exact Hc1.
Qed.

(** A body that does not call [commit], [rollback] or [close] leaves the
    transaction open. *)
Lemma body_ending_leaves_open (tx : nat) (body : list Command) (s : State) :
  forallb leaves_open body = true ->
  body_ending hydrated tx body s = LeftOpen.
Proof.
  revert s. induction body as [|c body IH]; intros s H; [reflexivity|].
  simpl in H. apply andb_true_iff in H as [Hc H].
  destruct c; try discriminate; simpl;
    try match goal with |- context [match ?x with pair _ _ => _ end] =>
      destruct x as [[[]|?|] ?] end;
    try reflexivity; now apply IH.
Qed.

(** A body whose commands are all [plain] runs only plain statements. *)
Lemma runs_plain_forallb (tx : nat) (body : list Command) (s : State) :
  forallb plain body = true ->
  runs_plain hydrated tx body s = true.
Proof.
  revert s. induction body as [|c body IH]; intros s H; [reflexivity|].
  cbn [forallb] in H. apply andb_true_iff in H as [Hc H].
  destruct c; cbn [runs_plain leaves_open]; try reflexivity;
    rewrite Hc; cbn [andb];
    match goal with |- context [exec_command hydrated tx ?c s] =>
      destruct (exec_command hydrated tx c s) as [[[]|?|] ?]
    end; try reflexivity; now apply IH.
Qed.

(** The state a body ends in, by the way it leaves the transaction. *)
Lemma exec_body_ending (tx : nat) (sent0 : list Message) (body : list Command) :
  forall s ob s1,
    runs_plain hydrated tx body s = true ->
    body_inv tx sent0 s ->
    exec_body hydrated tx body s = (ob, s1) ->
    match body_ending hydrated tx body s with
    | LeftOpen => body_inv tx sent0 s1
    | ClosedWith commit =>
        get_closed tx s1 = true /\ ob <> Blocks
        /\ exists d, sent (connection s1) = sent0 ++ d
                     /\ List.filter control d = [RUN (end_statement commit) []]
    | ClosingFailed => True
    end.
Proof.
  induction body as [|c body IH]; intros s ob s1 Hp Hinv Hbody.
  { cbn [exec_body body_ending] in *. cbv [ret] in Hbody.
    now injection Hbody as _ <-. }
  assert (Hopen : leaves_open c = true ->
            plain c = true ->
            (forall s2, exec_command hydrated tx c s = (Returns tt, s2) ->
                        runs_plain hydrated tx body s2 = true) ->
            (exec_command hydrated tx c ;; exec_body hydrated tx body) s
            = (ob, s1) ->
            match
              match exec_command hydrated tx c s with
              | (Returns _, s2) => body_ending hydrated tx body s2
              | _ => LeftOpen
              end
            with
            | LeftOpen => body_inv tx sent0 s1
            | ClosedWith commit =>
                get_closed tx s1 = true /\ ob <> Blocks
                /\ exists d, sent (connection s1) = sent0 ++ d
                     /\ List.filter control d = [RUN (end_statement commit) []]
            | ClosingFailed => True
            end).
  { intros Ho Hp1 Hp2. unfold bind.
    destruct (exec_command hydrated tx c s) as [o1 s2] eqn:E.
    pose proof (exec_command_body_inv tx sent0 c Ho Hp1 _ _ _ E Hinv) as Hinv2.
    destruct o1 as [[]|e|]; try (intros [= <- <-]; exact Hinv2).
    intros H. apply (IH s2); [now apply Hp2 | exact Hinv2 | exact H]. }
  assert (Hclose : forall commit,
            get_success tx s = commit \/ c <> Close ->
            (c = Commit /\ commit = true) \/ (c = Rollback /\ commit = false)
            \/ c = Close ->
            forall s2,
              exec_command hydrated tx c s = (Returns tt, s2) ->
              exec_body hydrated tx body s2 = (ob, s1) ->
              get_closed tx s1 = true /\ ob <> Blocks
              /\ exists d, sent (connection s1) = sent0 ++ d
                   /\ List.filter control d = [RUN (end_statement commit) []]).
  { intros commit Hsucc Hc s2 E Hrest.
    destruct Hinv as (Hc0 & Hv & Hrel & Hout & d & Hsent & Hd).
    destruct (lookup_lt_is_Some_2 _ _ Hv) as [t Ht].
    assert (Hct : closed t = false).
    { unfold get_closed in Hc0. now rewrite Ht in Hc0. }
    assert (H2 : sent (connection s2)
                 = sent (connection s)
                   ++ [RUN (end_statement commit) []; PULL_ALL]
                 /\ get_closed tx s2 = true).
    { destruct Hc as [[-> ->]|[[-> ->]| ->]]; cbn [exec_command] in E.
      - destruct (Transaction_finish_effect tx true t s _ _ Ht Hct Hrel E)
          as (_ & Hs & Hr & _). rewrite Hout in Hs.
        split; [exact Hs | apply (Hr eq_refl)].
      - destruct (Transaction_finish_effect tx false t s _ _ Ht Hct Hrel E)
          as (_ & Hs & Hr & _). rewrite Hout in Hs.
        split; [exact Hs | apply (Hr eq_refl)].
      - destruct Hsucc as [<-|Hne]; [|now contradiction Hne].
        destruct (Transaction_close_effect _ _ _ _ Hc0 E)
          as (Hs & _ & _ & _ & Hr & _).
        destruct (Hs Hrel) as [Hs1 _]. rewrite Hout in Hs1.
        split; [exact Hs1|].
        destruct (Hr eq_refl) as [Hr1 _]. now rewrite decide_True in Hr1. }
    destruct H2 as [Hsent2 Hclosed2].
    destruct (exec_body_closed _ _ _ _ _ Hclosed2 Hrest) as (Hconn & _ & Hc1 & Hnb).
    split; [exact Hc1|]. split; [exact Hnb|].
    exists (d ++ [RUN (end_statement commit) []; PULL_ALL]).
    rewrite Hconn, Hsent2, Hsent, <- app_assoc. split; [reflexivity|].
    rewrite List.filter_app, Hd. unfold end_statement.
    destruct commit; reflexivity. }
  assert (Hplain : leaves_open c = true -> c <> Return ->
            plain c = true
            /\ forall s2, exec_command hydrated tx c s = (Returns tt, s2) ->
                          runs_plain hydrated tx body s2 = true).
  { intros Ho Hr. destruct c; try discriminate Ho;
      try (exfalso; apply Hr; reflexivity);
      cbn [runs_plain leaves_open] in Hp;
      apply andb_true_iff in Hp as [Hp1 Hp2];
      (split; [exact Hp1|]); intros s2 E; rewrite E in Hp2; exact Hp2. }
  destruct c; cbn [exec_body body_ending leaves_open] in Hbody |- *.
  - destruct (Hplain eq_refl) as [Hp1 Hp2];
      [intros Hr; discriminate Hr|].
    apply (Hopen eq_refl Hp1 Hp2) in Hbody.
    destruct (exec_command hydrated tx (Run statement parameters) s)
      as [[[]|?|] ?]; exact Hbody.
  - destruct (Hplain eq_refl) as [Hp1 Hp2];
      [intros Hr; discriminate Hr|].
    apply (Hopen eq_refl Hp1 Hp2) in Hbody.
    destruct (exec_command hydrated tx (SetSuccess b) s)
      as [[[]|?|] ?]; exact Hbody.
  - unfold bind in Hbody.
    destruct (exec_command hydrated tx Commit s) as [[[]|?|] s2] eqn:E;
      try exact I.
    cbv beta iota in Hbody |- *.
    apply (Hclose true
             (or_intror (fun H : Commit = Close => ltac:(discriminate H)))
             (or_introl (conj eq_refl eq_refl)) s2 eq_refl Hbody).
  - unfold bind in Hbody.
    destruct (exec_command hydrated tx Rollback s) as [[[]|?|] s2] eqn:E;
      try exact I.
    cbv beta iota in Hbody |- *.
    apply (Hclose false
             (or_intror (fun H : Rollback = Close => ltac:(discriminate H)))
             (or_intror (or_introl (conj eq_refl eq_refl))) s2 eq_refl Hbody).
  - unfold bind in Hbody.
    destruct (exec_command hydrated tx Close s) as [[[]|?|] s2] eqn:E;
      try exact I.
    cbv beta iota in Hbody |- *.
    apply (Hclose (get_success tx s) (or_introl eq_refl)
             (or_intror (or_intror eq_refl)) s2 eq_refl Hbody).
  - destruct (Hplain eq_refl) as [Hp1 Hp2];
      [intros Hr; discriminate Hr|].
    apply (Hopen eq_refl Hp1 Hp2) in Hbody.
    destruct (exec_command hydrated tx (Raise e) s)
      as [[[]|?|] ?]; exact Hbody.
  - cbv [ret] in Hbody. now injection Hbody as _ <-.
Qed.

(** C3 (as amended): for a transaction used in a [with] block, on an open
    connection with nothing left in its buffer, when the body runs no
    [COMMIT] or [ROLLBACK] as a statement on the open transaction and
    every [commit], [rollback] or [close] it calls on the open
    transaction returns, exactly one of [COMMIT] and [ROLLBACK] is sent
    on every way out of the body.  When the body leaves the transaction
    open, [__exit__] sends it: [COMMIT] when [success] is set at the
    exit, [ROLLBACK] otherwise.  When the body has closed the transaction
    itself, that call has sent it, and [__exit__] sends nothing more and
    raises [AssertionError].  A body that calls none of the three leaves
    the transaction open, and a body whose statements are all other than
    [COMMIT] and [ROLLBACK] runs no such statement.  [commit] sets
    [success] and sends [COMMIT]; when that statement completes, the
    transaction is closed. *)
Theorem with_statement_ends_transaction (tx : nat) (t : Transaction)
    (s : State) :
  transaction_heap s !! tx = Some t ->
  closed t = false ->
  released (connection s) = false ->
  outgoing (connection s) = [] ->
  (forall body ob s1,
      runs_plain hydrated tx body s = true ->
      exec_body hydrated tx body s = (ob, s1) ->
      ob <> Blocks ->
      body_ending hydrated tx body s <> ClosingFailed ->
      exists o s' delta,
        with_statement hydrated tx body s = (o, s')
        /\ sent (connection s') = sent (connection s) ++ delta
        /\ List.filter control delta
           = [RUN (end_statement (deciding_success hydrated tx body s s1)) []]
        /\ (forall commit,
               body_ending hydrated tx body s = ClosedWith commit ->
               o = Raises AssertionError))
  /\ (forall body,
        forallb leaves_open body = true ->
        body_ending hydrated tx body s = LeftOpen)
  /\ (forall body,
        forallb plain body = true ->
        runs_plain hydrated tx body s = true)
  /\ (forall o s',
        Transaction_commit hydrated tx s = (o, s') ->
        get_success tx s' = true
        /\ sent (connection s')
           = sent (connection s) ++ [RUN (end_statement true) []; PULL_ALL]
        /\ (o = Returns tt ->
            get_closed tx s' = true /\ transaction s' = None)).
Proof.
  intros Hl Hc Hrel Hout.
  assert (Hv : tx < length (transaction_heap s)) by (eapply lookup_lt_Some; eauto).
  assert (Hgc : get_closed tx s = false) by (unfold get_closed; now rewrite Hl).
  split; [|split; [|split]].
  - intros body ob s1 Hp Hbody Hnb Hend.
    assert (Hstart : body_inv tx (sent (connection s)) s).
    { repeat split; auto. exists []. split; [now rewrite app_nil_r | reflexivity]. }
    pose proof (exec_body_ending tx _ body s ob s1 Hp Hstart Hbody) as Hinv.
    unfold deciding_success.
    unfold with_statement, Transaction___enter__, bind at 1, ret.
    rewrite Hbody. unfold Transaction___exit__.
    destruct (body_ending hydrated tx body s) as [|commit|];
      [| |now contradiction Hend].
    + destruct Hinv as (Hc1 & Hv1 & Hrel1 & Hout1 & d & Hsent1 & Hd).
      destruct (Transaction_close hydrated tx s1) as [o2 s2] eqn:Hclose.
      destruct (Transaction_close_effect _ _ _ _ Hc1 Hclose) as (Hsent2 & _).
      destruct (Hsent2 Hrel1) as [Hsent3 _]. rewrite Hout1 in Hsent3.
      simpl in Hsent3.
      assert (Hfilter : List.filter control
                (d ++ [RUN (end_statement (get_success tx s1)) []; PULL_ALL])
              = [RUN (end_statement (get_success tx s1)) []]).
      { rewrite List.filter_app, Hd. unfold end_statement.
        destruct (get_success tx s1); reflexivity. }
      assert (Hsent4 : sent (connection s2) = sent (connection s)
                ++ (d ++ [RUN (end_statement (get_success tx s1)) []; PULL_ALL])).
      { rewrite Hsent3, Hsent1. now rewrite <- app_assoc. }
      assert (Hno : forall (o : Outcome unit) (commit : bool),
                 LeftOpen = ClosedWith commit -> o = Raises AssertionError)
        by (intros; discriminate).
      destruct ob as [[]|e|]; [| |now contradiction Hnb].
      * eauto 8.
      * destruct o2 as [[]|e2|]; eauto 8.
    + destruct Hinv as (Hc1 & _ & d & Hsent1 & Hd).
      unfold Transaction_close. rewrite Hc1.
      exists (Raises AssertionError), s1, d.
      destruct ob as [[]|e|]; [| |now contradiction Hnb]; auto.
  - intros body. apply body_ending_leaves_open.
  - intros body. apply runs_plain_forallb.
  - intros o s' Hcommit.
    destruct (Transaction_finish_effect tx true t s o s' Hl Hc Hrel Hcommit)
      as (Hs & Hsent & Hret & _).
    rewrite Hout in Hsent. auto.
Qed.

Lemma Transaction_close_returns (tx : nat) (t : Transaction) (s : State)
    (header footer : Metadata) (ks : list string) (rows : list (list Value))
    (rest : list ServerMessage) :
  transaction_heap s !! tx = Some t ->
  closed t = false ->
  released (connection s) = false ->
  responses (connection s) = [] ->
  md_fields header = Some ks ->
  incoming (connection s)
    = SUCCESS header :: map RECORD rows ++ SUCCESS footer :: rest ->
  exists s', Transaction_close hydrated tx s = (Returns tt, s').
Proof.
  intros Hl Hc Hrel Hq Hks Hinc. unfold Transaction_close, get_closed.
  rewrite Hl, Hc. unfold bind at 1.
  destruct (get_success tx s).
  - destruct (Session_run_stream COMMIT None _ s header footer ks rows rest
                eq_refl Hrel Hq Hks Hinc) as (s1 & -> & _).
    eexists. reflexivity.
  - destruct (Session_run_stream ROLLBACK None _ s header footer ks rows rest
                eq_refl Hrel Hq Hks Hinc) as (s1 & -> & _).
    eexists. reflexivity.
Qed.

(** *** Statements given as bytes *)

(** C9: a statement given as bytes is decoded as UTF-8 before anything is
    sent, so the call is the call on the decoded text, and the call on the
    UTF-8 encoding of a text is the call on that text; a text statement
    goes into the [RUN] message as it is; bytes that are not UTF-8 raise
    the decoding error and nothing is sent. *)
Theorem Session_run_decodes_statement (p : option Parameters) (s : State) :
  (forall b t, utf8_decode b = Some t ->
     Session_run hydrated (StatementBytes b) p s
     = Session_run hydrated (StatementText t) p s)
  /\ (forall t, forallb scalar_value t = true ->
     Session_run hydrated (StatementBytes (utf8_encode t)) p s
     = Session_run hydrated (StatementText t) p s)
  /\ (forall t o s', Session_run hydrated (StatementText t) p s = (o, s') ->
     exists n,
       events (connection s')
       = events (connection s)
         ++ [EvAppend (RUN t (default [] p)); EvAppend PULL_ALL; EvSend]
         ++ repeat EvFetch n)
  /\ (forall b, utf8_decode b = None ->
     Session_run hydrated (StatementBytes b) p s = (Raises UnicodeDecodeError, s)).
Proof.
  split; [|split; [|split]].
  - intros b t Hb. rewrite !Session_run_unfold. simpl. now rewrite Hb.
  - intros t Ht. rewrite !Session_run_unfold. simpl.
    now rewrite utf8_decode_encode.
  - intros t o s' H.
    now destruct (Session_run_trace (StatementText t) p t s o s' eq_refl H).
  - intros b Hb. rewrite Session_run_unfold. simpl. now rewrite Hb.
Qed.
End Properties.

(** ** The driver *)

(** C6 (as amended): constructing a driver never touches the network: a
    connection is opened only by [Driver.session].  For a URL whose scheme
    is not ["bolt"] it raises [ValueError], the error of a wrong
    configuration.  For the ["bolt"] scheme it returns a driver that holds
    the parsed host and port when the port of the URL can be read, and
    only then: when reading the port raises, for a port that is not a
    number, the constructor raises that error.  A URL the parser refuses
    makes the constructor raise the parser's error. *)
Theorem Driver_checks_scheme (urlparse : string -> Outcome ParseResult)
    (url : string) (config : list (string * Value)) (net : Network) :
  snd (GraphDatabase_driver urlparse url config net) = net
  /\ (forall parsed,
        urlparse url = Returns parsed ->
        scheme parsed <> "bolt" ->
        GraphDatabase_driver urlparse url config net
        = (Raises (ValueError ("Unsupported URL scheme: " +:+ scheme parsed)),
           net))
  /\ (forall parsed,
        urlparse url = Returns parsed ->
        scheme parsed = "bolt" ->
        (forall p,
            port parsed = Returns p ->
            GraphDatabase_driver urlparse url config net
            = (Returns (mkDriver url (hostname parsed) p config), net))
        /\ (forall e,
               port parsed = Raises e ->
               GraphDatabase_driver urlparse url config net = (Raises e, net))
        /\ (forall d,
               fst (GraphDatabase_driver urlparse url config net) = Returns d ->
               port parsed = Returns (driver_port d)))
  /\ (forall e,
        urlparse url = Raises e ->
        GraphDatabase_driver urlparse url config net = (Raises e, net))
  /\ (forall d link, snd (Driver_session d link net)
                     = net ++ [(driver_host d, driver_port d)]).
Proof.
  unfold GraphDatabase_driver, Driver___init__.
  split; [|split; [|split; [|split]]].
  - destruct (urlparse url) as [parsed|e|]; try reflexivity.
    destruct (String.eqb (scheme parsed) "bolt"); [|reflexivity].
    destruct (port parsed); reflexivity.
  - intros parsed -> H. apply String.eqb_neq in H. now rewrite H.
  - intros parsed -> H. apply String.eqb_eq in H. rewrite H.
    split; [|split].
    + now intros p ->.
    + now intros e ->.
    + intros d. destruct (port parsed) as [p|e|]; try discriminate.
      now intros [= <-].
  - now intros e ->.
  - reflexivity.
Qed.

(** * Further properties *)

(** ** Records: errors, negative indices and [repr] *)

Lemma list_index_None (item : string) (l : list string) :
  item ∉ l -> list_index item l = None.
Proof.
  induction l as [|x l IH]; [reflexivity|]. intros H. simpl.
  destruct (String.eqb x item) eqn:E.
  - apply String.eqb_eq in E. subst. exfalso. apply H. now left.
  - rewrite IH; [reflexivity|]. intros Hin. apply H. now right.
Qed.

(** X1: a name that is neither a key nor an ordinary attribute: lookup by
    name and attribute access raise [AttributeError], not [KeyError]. *)
Theorem Record_missing_name (keys : list string) (values : list Value)
    (name : string) :
  name ∉ keys ->
  ordinary_attribute (mkRecord (Some keys) values) name = None ->
  Record___getitem__ (mkRecord (Some keys) values) (ItemStr name)
  = Raises (AttributeError name)
  /\ Record_getattr (mkRecord (Some keys) values) name
     = Raises (AttributeError name).
Proof.
  intros Hin Hord. unfold Record___getitem__, Record_getattr.
  rewrite Hord. unfold Record___getattr__. simpl.
  now rewrite (list_index_None _ _ Hin).
Qed.

Lemma sequence_getitem_out {A : Type} (l : list A) (i : Z) :
  (i < - Z.of_nat (length l) \/ Z.of_nat (length l) <= i)%Z ->
  sequence_getitem l i = Raises IndexError.
Proof.
  intros H. unfold sequence_getitem.
  destruct (Z.ltb_spec i 0).
  - destruct (Z.leb_spec 0 (i + Z.of_nat (length l))); [lia|]. reflexivity.
  - destruct (Z.leb_spec 0 i); [|lia].
    destruct (Z.ltb_spec i (Z.of_nat (length l))); [lia|]. reflexivity.
Qed.

(** X2: an integer outside [-len(keys), len(keys)) raises [IndexError],
    whatever the values are; an item that is neither a string nor an
    integer raises [TypeError]. *)
Theorem Record_index_out_of_range (keys : list string) (values : list Value)
    (i : Z) :
  (i < - Z.of_nat (length keys) \/ Z.of_nat (length keys) <= i)%Z ->
  Record___getitem__ (mkRecord (Some keys) values) (ItemInt i)
  = Raises IndexError
  /\ Record___getitem__ (mkRecord (Some keys) values) ItemOther
     = Raises TypeError.
Proof.
  intros H. split; [|reflexivity]. unfold Record___getitem__. simpl.
  now rewrite sequence_getitem_out.
Qed.

Lemma sequence_getitem_negative {A : Type} (l : list A) (i : nat) :
  i < length l ->
  sequence_getitem l (Z.of_nat i - Z.of_nat (length l))
  = sequence_getitem l (Z.of_nat i).
Proof.
  intros H. unfold sequence_getitem.
  destruct (Z.ltb_spec (Z.of_nat i - Z.of_nat (length l)) 0); [|lia].
  destruct (Z.ltb_spec (Z.of_nat i) 0); [lia|].
  now replace (Z.of_nat i - Z.of_nat (length l) + Z.of_nat (length l))%Z
    with (Z.of_nat i) by lia.
Qed.

(** X3: a negative index counts from the end: [record[i - len(record)]] is
    [record[i]]. *)
Theorem Record_negative_index (keys : list string) (values : list Value)
    (i : nat) :
  i < length keys ->
  Record___getitem__ (mkRecord (Some keys) values)
    (ItemInt (Z.of_nat i - Z.of_nat (length keys)))
  = Record___getitem__ (mkRecord (Some keys) values) (ItemInt (Z.of_nat i)).
Proof.
  intros H. unfold Record___getitem__. simpl.
  now rewrite sequence_getitem_negative.
Qed.

(** X4: with as many values as keys, every index below [len(record)] can be
    read: [record[i]] returns. *)
Theorem Record_index_in_range (keys : list string) (values : list Value)
    (n i : nat) :
  length keys = length values ->
  Record___len__ (mkRecord (Some keys) values) = Returns n ->
  i < n ->
  exists a,
    Record___getitem__ (mkRecord (Some keys) values) (ItemInt (Z.of_nat i))
    = Returns a.
Proof.
  intros Hlen [= <-] Hi.
  destruct (lookup_lt_is_Some_2 keys i Hi) as [k Hk].
  rewrite (Record_getitem_int _ _ _ _ Hk). unfold Record_getattr.
  destruct (ordinary_attribute _ k) as [a|] eqn:Hord; [eauto|].
  destruct (list_index_first _ _ _ Hk) as (j & Hj & Hle).
  destruct (lookup_lt_is_Some_2 values j) as [v Hv]; [lia|].
  exists (AttrField v). unfold Record___getattr__. simpl.
  now rewrite Hj, (sequence_getitem_nat _ _ _ Hv).
Qed.

Lemma sequence_getitem_Returns {A : Type} (l : list A) (i : Z) (x : A) :
  sequence_getitem l i = Returns x -> exists j, l !! j = Some x.
Proof.
  unfold sequence_getitem.
  destruct ((0 <=? _) && _)%Z; [|discriminate].
  destruct (l !! _) as [y|] eqn:E; [|discriminate].
  intros [= <-]. eauto.
Qed.

(** X5: whatever the item, a field value that a lookup returns is the value
    at the first position of some key: the value of a later duplicate is
    never returned for its name. *)
Theorem Record_lookup_first_occurrence (keys : list string)
    (values : list Value) (item : Item) (v : Value) :
  Record___getitem__ (mkRecord (Some keys) values) item = Returns (AttrField v) ->
  exists k j,
    list_index k keys = Some j /\ keys !! j = Some k /\ values !! j = Some v.
Proof.
  assert (Hattr : forall k,
             Record_getattr (mkRecord (Some keys) values) k
             = Returns (AttrField v) ->
             exists j, list_index k keys = Some j /\ keys !! j = Some k
                       /\ values !! j = Some v).
  { intros k. unfold Record_getattr, ordinary_attribute.
    destruct (String.eqb k "__keys__"); [discriminate|].
    destruct (String.eqb k "__values__"); [discriminate|].
    destruct (_ || _); [discriminate|].
    unfold Record___getattr__. simpl.
    destruct (list_index k keys) as [j|] eqn:Hj; [|discriminate].
    unfold sequence_getitem.
    destruct (Z.ltb_spec (Z.of_nat j) 0); [lia|].
    destruct ((0 <=? _) && _)%Z; [|discriminate].
    rewrite Nat2Z.id. destruct (values !! j) as [w|] eqn:Hw; [|discriminate].
    simpl. intros [= <-]. exists j. split; [reflexivity|]. split; [|exact Hw].
    now apply list_index_lookup. }
  destruct item as [s|i|]; simpl; try discriminate.
  - intros H. destruct (Hattr _ H) as (j & ?). eauto.
  - destruct (sequence_getitem keys i) as [k|e|]; try discriminate.
    simpl. intros H. destruct (Hattr _ H) as (j & ?). eauto.
Qed.

Section Printing.
Variable repr : Value -> string.

Lemma repr_fields_zip (keys : list string) (values : list Value) (i : nat) :
  i + length keys <= length values ->
  repr_fields repr i keys values
  = Returns (zip_with (fun k v => k +:+ "=" +:+ repr v) keys (drop i values)).
Proof.
  revert i. induction keys as [|k keys IH]; intros i H; [reflexivity|].
  simpl in *. destruct (lookup_lt_is_Some_2 values i) as [v Hv]; [lia|].
  rewrite Hv, IH by lia. simpl.
  rewrite (drop_S _ _ _ Hv). reflexivity.
Qed.

Lemma repr_fields_short (keys : list string) (values : list Value) (i : nat) :
  i <= length values ->
  length values < i + length keys ->
  repr_fields repr i keys values = Raises IndexError.
Proof.
  revert i. induction keys as [|k keys IH]; intros i Hi H; simpl in *; [lia|].
  destruct (values !! i) as [v|] eqn:Hv; [|reflexivity].
  apply lookup_lt_Some in Hv. rewrite IH by lia. reflexivity.
Qed.

(** X6: [repr(record)] prints every key with the value at the key's own
    position, also for a name that occurs twice; it raises [IndexError]
    exactly when the record has fewer values than keys. *)
Theorem Record_repr_by_position (keys : list string) (values : list Value) :
  (length keys <= length values ->
   Record___repr__ repr (mkRecord (Some keys) values)
   = Returns ("<Record "
              +:+ String.concat " "
                    (zip_with (fun k v => k +:+ "=" +:+ repr v) keys values)
              +:+ ">"))
  /\ (length values < length keys ->
      Record___repr__ repr (mkRecord (Some keys) values) = Raises IndexError).
Proof.
  unfold Record___repr__. simpl. split; intros H.
  - now rewrite repr_fields_zip.
  - rewrite repr_fields_short; [reflexivity | lia | exact H].
Qed.
End Printing.

(** ** Sessions and transactions *)

Section Further.
Variable hydrated : Value -> Value.

(** ** What [Session.run] leaves alone *)

(** X7: whatever the statement and whatever the server answers, a call of
    [Session.run] changes neither the session's transaction slot nor any
    transaction, and it does not release the connection. *)
Theorem Session_run_leaves_transactions (statement : Statement)
    (p : option Parameters) (s : State) :
  let s' := snd (Session_run hydrated statement p s) in
  transaction s' = transaction s
  /\ transaction_heap s' = transaction_heap s
  /\ released (connection s') = released (connection s).
Proof.
  destruct (Session_run hydrated statement p s) as [o s'] eqn:H.
  apply Session_run_effect in H as (H1 & H2 & H3 & _). simpl. auto.
Qed.

(** ** Closed transactions *)

(** X8: once a transaction is closed nothing is sent for it any more: [run],
    [commit], [rollback] and [close] raise [AssertionError], and a [with]
    block over it ends in [AssertionError] whatever its body does; the
    connection and the session's slot stay as they are. *)
Theorem closed_transaction_is_silent (tx : nat) (s : State) :
  get_closed tx s = true ->
  (forall c o s',
      exec_command hydrated tx c s = (o, s') ->
      connection s' = connection s /\ transaction s' = transaction s
      /\ get_closed tx s' = true
      /\ (match c with
          | Run _ _ | Commit | Rollback | Close => o = Raises AssertionError
          | _ => True
          end))
  /\ (forall body, exists s',
        with_statement hydrated tx body s = (Raises AssertionError, s')
        /\ connection s' = connection s /\ transaction s' = transaction s
        /\ get_closed tx s' = true).
Proof.
  intros Hc. split.
  - intros c o s'. now apply (exec_command_closed hydrated).
  - intros body. unfold with_statement, Transaction___enter__, bind at 1, ret.
    destruct (exec_body hydrated tx body s) as [ob s1] eqn:Hb.
    destruct (exec_body_closed hydrated _ _ _ _ _ Hc Hb) as (H1 & H2 & H3 & H4).
    unfold Transaction___exit__, Transaction_close. rewrite H3.
    destruct ob as [[]|e|]; [| |now contradiction H4]; eauto.
Qed.

(** ** [commit] and [rollback] *)

(** X9: [rollback] on an open transaction clears [success], whatever it was,
    and sends [ROLLBACK]; when that statement completes, the transaction
    is closed and the session's slot is empty; when it does not, the
    transaction stays open. *)
Theorem Transaction_rollback_effect (tx : nat) (t : Transaction) (s : State)
    o s' :
  transaction_heap s !! tx = Some t ->
  closed t = false ->
  released (connection s) = false ->
  Transaction_rollback hydrated tx s = (o, s') ->
  get_success tx s' = false
  /\ sent (connection s')
     = sent (connection s) ++ outgoing (connection s)
       ++ [RUN (text_of_string "ROLLBACK") []; PULL_ALL]
  /\ (o = Returns tt -> get_closed tx s' = true /\ transaction s' = None)
  /\ (o <> Returns tt -> get_closed tx s' = false
                         /\ transaction s' = transaction s).
Proof.
  intros Hl Hc Hrel H.
  exact (Transaction_finish_effect hydrated tx false t s o s' Hl Hc Hrel H).
Qed.

(** X10: [commit] on an open transaction sets [success], whatever it was, and
    sends [COMMIT]; when that statement completes, the transaction is
    closed and the session's slot is empty; when it does not, the
    transaction stays open, marked as successful. *)
Theorem Transaction_commit_effect (tx : nat) (t : Transaction) (s : State)
    o s' :
  transaction_heap s !! tx = Some t ->
  closed t = false ->
  released (connection s) = false ->
  Transaction_commit hydrated tx s = (o, s') ->
  get_success tx s' = true
  /\ sent (connection s')
     = sent (connection s) ++ outgoing (connection s)
       ++ [RUN (text_of_string "COMMIT") []; PULL_ALL]
  /\ (o = Returns tt -> get_closed tx s' = true /\ transaction s' = None)
  /\ (o <> Returns tt -> get_closed tx s' = false
                         /\ transaction s' = transaction s).
Proof.
  intros Hl Hc Hrel H.
  exact (Transaction_finish_effect hydrated tx true t s o s' Hl Hc Hrel H).
Qed.


(** ** [new_transaction] *)

(** What [new_transaction] does on an open connection with the slot
    empty. *)
Lemma Session_new_transaction_effect (s : State) o s' :
  transaction s = None ->
  released (connection s) = false ->
  Session_new_transaction hydrated s = (o, s') ->
  sent (connection s')
  = sent (connection s) ++ outgoing (connection s)
    ++ [RUN (text_of_string "BEGIN") []; PULL_ALL]
  /\ outgoing (connection s') = []
  /\ released (connection s') = false
  /\ match o with
     | Returns tx =>
         transaction s' = Some tx
         /\ transaction_heap s' !! tx = Some (mkTransaction false false)
         /\ length (transaction_heap s') = S (length (transaction_heap s))
     | _ =>
         transaction s' = None
         /\ transaction_heap s' = transaction_heap s
     end.
Proof.
  intros Hslot Hrel. unfold Session_new_transaction. rewrite Hslot.
  unfold Transaction___init__, bind.
  destruct (Session_run hydrated BEGIN None s) as [o1 s1] eqn:Hrun.
  pose proof (Session_run_effect _ _ _ _ _ _ Hrun) as (Ht & Hh & Hr & _).
  destruct (Session_run_trace _ BEGIN None _ _ _ _ eq_refl Hrun) as [_ Hs].
  destruct (Hs Hrel) as [Hsent Hout]. simpl in Hsent. rewrite Hrel in Hr.
  destruct o1 as [r|e|].
  - unfold modify, ret. intros [= <- <-]. simpl.
    split; [exact Hsent|]. split; [exact Hout|]. split; [exact Hr|].
    split; [reflexivity|].
    rewrite Hh. split; [apply list_lookup_middle; reflexivity|].
    rewrite length_app. simpl. lia.
  - intros [= <- <-]. split; [exact Hsent|]. split; [exact Hout|].
    split; [exact Hr|]. split; congruence.
  - intros [= <- <-]. split; [exact Hsent|]. split; [exact Hout|].
    split; [exact Hr|]. split; congruence.
Qed.

(** X11: on an open connection and with the slot empty, [new_transaction]
    sends [BEGIN]; unless it returns, the session is left without a
    transaction: the slot is still empty and no transaction was added. *)
Theorem Session_new_transaction_begins (s : State) o s' :
  transaction s = None ->
  released (connection s) = false ->
  Session_new_transaction hydrated s = (o, s') ->
  sent (connection s')
  = sent (connection s) ++ outgoing (connection s)
    ++ [RUN (text_of_string "BEGIN") []; PULL_ALL]
  /\ outgoing (connection s') = []
  /\ match o with
     | Returns tx =>
         transaction s' = Some tx
         /\ transaction_heap s' !! tx = Some (mkTransaction false false)
         /\ length (transaction_heap s') = S (length (transaction_heap s))
     | _ =>
         transaction s' = None
         /\ transaction_heap s' = transaction_heap s
     end.
Proof.
  intros Hslot Hrel H.
  destruct (Session_new_transaction_effect s o s' Hslot Hrel H)
    as (H1 & H2 & _ & H3). auto.
Qed.

(** ** The [success] flag at the end of a [with] block *)

(** What [__exit__] sends after a body that left the transaction open. *)
Lemma with_statement_exit (tx : nat) (sent0 : list Message)
    (body : list Command) (s : State) ob s1 :
  exec_body hydrated tx body s = (ob, s1) ->
  ob <> Blocks ->
  body_inv tx sent0 s1 ->
  exists o s' delta,
    with_statement hydrated tx body s = (o, s')
    /\ sent (connection s') = sent0 ++ delta
    /\ List.filter control delta = [RUN (end_statement (get_success tx s1)) []].
Proof.
  intros Hbody Hnb (Hc1 & Hv1 & Hrel1 & Hout1 & d & Hsent1 & Hd).
  unfold with_statement, Transaction___enter__, bind at 1, ret.
  rewrite Hbody. unfold Transaction___exit__.
  destruct (Transaction_close hydrated tx s1) as [o2 s2] eqn:Hclose.
  destruct (Transaction_close_effect _ _ _ _ _ Hc1 Hclose) as (Hsent2 & _).
  destruct (Hsent2 Hrel1) as [Hsent3 _]. rewrite Hout1 in Hsent3.
  simpl in Hsent3.
  assert (Hfilter : List.filter control
            (d ++ [RUN (end_statement (get_success tx s1)) []; PULL_ALL])
          = [RUN (end_statement (get_success tx s1)) []]).
  { rewrite List.filter_app, Hd. unfold end_statement.
    destruct (get_success tx s1); reflexivity. }
  assert (Hsent4 : sent (connection s2) = sent0
            ++ (d ++ [RUN (end_statement (get_success tx s1)) []; PULL_ALL])).
  { rewrite Hsent3, Hsent1. now rewrite <- app_assoc. }
  destruct ob as [[]|e|]; [| |now contradiction Hnb].
  - eauto 6.
  - destruct o2 as [[]|e2|]; eauto 6.
Qed.

Lemma body_inv_start (tx : nat) (t : Transaction) (s : State) :
  transaction_heap s !! tx = Some t ->
  closed t = false ->
  released (connection s) = false ->
  outgoing (connection s) = [] ->
  body_inv tx (sent (connection s)) s.
Proof.
  intros Hl Hc Hrel Hout. split.
  { unfold get_closed. now rewrite Hl. }
  split; [eapply lookup_lt_Some; eauto|]. split; [exact Hrel|].
  split; [exact Hout|]. exists []. split; [now rewrite app_nil_r | reflexivity].
Qed.

Lemma exec_body_app (tx : nat) (body1 body2 : list Command) (s : State) :
  forallb falls_through body1 = true ->
  exec_body hydrated tx (body1 ++ body2) s
  = (exec_body hydrated tx body1 ;; exec_body hydrated tx body2) s.
Proof.
  revert s. induction body1 as [|c body1 IH]; intros s H; simpl.
  - reflexivity.
  - simpl in H. apply andb_true_iff in H as [Hc H].
    destruct c; try discriminate; unfold bind;
      match goal with |- context [exec_command hydrated tx ?c s] =>
        destruct (exec_command hydrated tx c s) as [[[]|?|] s1]
      end; try reflexivity; rewrite IH by exact H; reflexivity.
Qed.

(** X12: only the last value assigned to [success] takes effect: when a body
    that leaves the transaction open runs to its end and then assigns
    [success], [__exit__] sends [COMMIT] if that value is true and
    [ROLLBACK] if it is false, whatever was assigned before. *)
Theorem with_statement_last_success (tx : nat) (t : Transaction) (s s1 : State)
    (body : list Command) (b : bool) :
  transaction_heap s !! tx = Some t ->
  closed t = false ->
  released (connection s) = false ->
  outgoing (connection s) = [] ->
  forallb leaves_open body = true ->
  forallb plain body = true ->
  forallb falls_through body = true ->
  exec_body hydrated tx body s = (Returns tt, s1) ->
  exists o s' delta,
    with_statement hydrated tx (body ++ [SetSuccess b]) s = (o, s')
    /\ sent (connection s') = sent (connection s) ++ delta
    /\ List.filter control delta = [RUN (end_statement b) []].
Proof.
  intros Hl Hc Hrel Hout Ho Hp Hf Hbody.
  pose proof (body_inv_start _ _ _ Hl Hc Hrel Hout) as Hstart.
  pose proof (exec_body_body_inv hydrated tx _ body Ho Hp _ _ _ Hbody Hstart)
    as Hinv1.
  assert (Hrun : exec_body hydrated tx (body ++ [SetSuccess b]) s
                 = (Returns tt, snd (set_success tx b s1))).
  { rewrite exec_body_app by exact Hf. unfold bind at 1. rewrite Hbody.
    reflexivity. }
  assert (Hinv2 : body_inv tx (sent (connection s)) (snd (set_success tx b s1))).
  { eapply (exec_body_body_inv hydrated tx _ (body ++ [SetSuccess b]));
      [| |exact Hrun|exact Hstart].
    - rewrite forallb_app, Ho. reflexivity.
    - rewrite forallb_app, Hp. reflexivity. }
  destruct (with_statement_exit tx _ _ s _ _ Hrun ltac:(discriminate) Hinv2)
    as (o & s' & delta & Hw & Hsent & Hfilter).
  exists o, s', delta. split; [exact Hw|]. split; [exact Hsent|].
  rewrite Hfilter. f_equal. f_equal. f_equal.
  destruct Hinv1 as (_ & Hv & _).
  unfold get_success. simpl. rewrite list_lookup_alter_eq.
  destruct (lookup_lt_is_Some_2 _ _ Hv) as [t1 ->]. reflexivity.
Qed.

Lemma exec_command_keeps_success (tx : nat) (c : Command) (s : State) o s' :
  leaves_open c = true -> keeps_success c = true ->
  exec_command hydrated tx c s = (o, s') ->
  get_success tx s' = get_success tx s.
Proof.
  intros Ho Hk. destruct c; try discriminate; simpl.
  - unfold bind, Transaction_run.
    destruct (get_closed tx s); [now intros [= <- <-]|].
    destruct (Session_run hydrated statement parameters s) as [o1 s1] eqn:Hrun.
    apply Session_run_effect in Hrun as (_ & Hh & _).
    intros H. assert (s' = s1) as -> by (destruct o1; now injection H as _ <-).
    unfold get_success. now rewrite Hh.
  - now intros [= <- <-].
  - now intros [= <- <-].
Qed.

Lemma exec_body_keeps_success (tx : nat) (body : list Command) (s : State) o s' :
  forallb leaves_open body = true -> forallb keeps_success body = true ->
  exec_body hydrated tx body s = (o, s') ->
  get_success tx s' = get_success tx s.
Proof.
  revert s. induction body as [|c body IH]; intros s Ho Hk; simpl.
  - now intros [= <- <-].
  - simpl in Ho, Hk. apply andb_true_iff in Ho as [Ho1 Ho2].
    apply andb_true_iff in Hk as [Hk1 Hk2].
    assert (Hstep : (exec_command hydrated tx c ;; exec_body hydrated tx body) s
                    = (o, s') -> get_success tx s' = get_success tx s).
    { unfold bind. destruct (exec_command hydrated tx c s) as [o1 s1] eqn:E.
      pose proof (exec_command_keeps_success _ _ _ _ _ Ho1 Hk1 E) as H1.
      destruct o1 as [[]|e|]; try (intros [= <- <-]; exact H1).
      intros H. rewrite <- H1. now apply IH. }
    destruct c; try exact Hstep. now intros [= <- <-].
Qed.

(** X13: a new transaction is rolled back unless the block says otherwise: in
    [with session.new_transaction() as tx: body], when the body never
    assigns [success] and leaves the transaction open, [__exit__] sends
    [ROLLBACK], on every way out of the body. *)
Theorem new_transaction_rolls_back_by_default (s s1 s2 : State) (tx : nat)
    (body : list Command) ob :
  released (connection s) = false ->
  Session_new_transaction hydrated s = (Returns tx, s1) ->
  forallb leaves_open body = true ->
  forallb plain body = true ->
  forallb keeps_success body = true ->
  exec_body hydrated tx body s1 = (ob, s2) ->
  ob <> Blocks ->
  exists o s' delta,
    with_statement hydrated tx body s1 = (o, s')
    /\ sent (connection s') = sent (connection s1) ++ delta
    /\ List.filter control delta = [RUN (text_of_string "ROLLBACK") []].
Proof.
  intros Hrel Hnew Ho Hp Hk Hbody Hnb.
  pose proof (Session_new_transaction_returns _ _ _ _ Hnew) as (Hslot & _).
  destruct (Session_new_transaction_effect s _ _ Hslot Hrel Hnew)
    as (_ & Hout1 & Hrel1 & _ & Hl1 & _).
  pose proof (body_inv_start _ _ _ Hl1 eq_refl Hrel1 Hout1) as Hstart.
  pose proof (exec_body_body_inv hydrated tx _ body Ho Hp _ _ _ Hbody Hstart)
    as Hinv.
  destruct (with_statement_exit tx _ _ s1 _ _ Hbody Hnb Hinv)
    as (o & s' & delta & Hw & Hsent & Hfilter).
  exists o, s', delta. split; [exact Hw|]. split; [exact Hsent|].
  rewrite Hfilter, (exec_body_keeps_success _ _ _ _ _ Ho Hk Hbody).
  unfold get_success. now rewrite Hl1.
Qed.

(** ** Results of earlier calls *)

Lemma handle_serves (result : nat) (R : Response) (m : ServerMessage)
    (s : State) o s' :
  serves result R ->
  handle hydrated R m s = (o, s') ->
  forall r', r' <> result -> result_heap s' !! r' = result_heap s !! r'.
Proof.
  intros (Hrec & Hsuc & Hfail) H r' Hne.
  destruct m as [md|md| |values]; simpl in H.
  - destruct (on_success R) as [|r|r|r] eqn:E; simpl in H, Hsuc;
      cbv [Result_on_header Result_on_footer Result_on_failure ret raise modify]
        in H;
      try destruct (md_fields md); cbv beta in H; injection H as _ <-;
      try reflexivity.
    simpl. rewrite (Hsuc r eq_refl). now rewrite list_lookup_alter_ne.
  - destruct (on_failure R) as [|r|r|r] eqn:E; simpl in H, Hfail;
      cbv [Result_on_header Result_on_footer Result_on_failure ret raise modify]
        in H;
      try destruct (md_fields md); cbv beta in H; injection H as _ <-;
      try reflexivity.
    simpl. rewrite (Hfail r eq_refl). now rewrite list_lookup_alter_ne.
  - cbv [ret] in H. now injection H as _ <-.
  - destruct (on_record R) as [|r] eqn:E; simpl in H, Hrec;
      cbv [Result_on_record ret modify] in H; injection H as _ <-;
      try reflexivity.
    simpl. rewrite (Hrec r eq_refl). now rewrite list_lookup_alter_ne.
Qed.

Lemma serves_set_complete (result r : nat) (heap : list Response) (r0 : nat) :
  (exists R, heap !! r0 = Some R /\ serves result R) ->
  exists R,
    alter (fun x => mkResponse true (on_record x) (on_success x) (on_failure x))
          r heap !! r0 = Some R
    /\ serves result R.
Proof.
  intros (R & HR & Hs). destruct (decide (r = r0)) as [->|Hne].
  - rewrite list_lookup_alter_eq, HR. simpl. eexists. split; [reflexivity|].
    exact Hs.
  - rewrite list_lookup_alter_ne by assumption. eauto.
Qed.

Lemma fetch_next_serves (result : nat) (s : State) o s' :
  queue_serves result s ->
  Connection_fetch_next hydrated s = (o, s') ->
  queue_serves result s'
  /\ forall r', r' <> result -> result_heap s' !! r' = result_heap s !! r'.
Proof.
  intros Hq. unfold Connection_fetch_next.
  cbn [connection with_connection log_event released incoming responses].
  destruct (released (connection s)) eqn:Hrel.
  { intros [= <- <-]. split; [exact Hq | reflexivity]. }
  destruct (incoming (connection s)) as [|m rest] eqn:Hinc.
  { intros [= <- <-]. split; [exact Hq | reflexivity]. }
  destruct (responses (connection s)) as [|r q] eqn:Hqueue.
  { intros [= <- <-]. split; [|reflexivity].
    unfold queue_serves. simpl. rewrite Hqueue. constructor. }
  cbn [response_heap with_connection].
  destruct (response_heap s !! r) as [R|] eqn:HR.
  2:{ intros [= <- <-]. split; [|reflexivity].
      unfold queue_serves in *. simpl. exact Hq. }
  assert (Hserves : serves result R).
  { unfold queue_serves in Hq. rewrite Hqueue in Hq.
    apply Forall_cons in Hq as [(R' & HR' & Hs) _]. congruence. }
  unfold bind at 1.
  match goal with |- context [handle hydrated R m ?s1] =>
    destruct (handle hydrated R m s1) as [o1 s2] eqn:Hh end.
  pose proof (handle_serves _ _ _ _ _ _ Hserves Hh) as Hother.
  apply handle_frame in Hh as (Hc & _ & _ & Hrh & _). simpl in Hc, Hrh, Hother.
  assert (Hbase : queue_serves result s2).
  { unfold queue_serves in *. now rewrite Hc, Hrh. }
  destruct o1 as [[]|e|]; try (intros [= <- <-]; split; assumption).
  destruct (is_summary m); [|intros [= <- <-]; split; assumption].
  unfold bind, set_complete, pop_response, modify. intros [= <- <-].
  split; [|exact Hother].
  unfold queue_serves in *. simpl. rewrite Hc. simpl. rewrite Hqueue.
  rewrite Hqueue in Hq. apply Forall_cons in Hq as [_ Hq].
  eapply Forall_impl; [exact Hq|]. intros r0 H0. rewrite Hrh.
  now apply serves_set_complete.
Qed.

Lemma fetch_loop_serves (result fuel response : nat) (s : State) o s' :
  queue_serves result s ->
  fetch_loop hydrated fuel response s = (o, s') ->
  forall r', r' <> result -> result_heap s' !! r' = result_heap s !! r'.
Proof.
  revert s. induction fuel as [|fuel IH]; intros s Hq; simpl.
  - destruct (is_complete response s); now intros [= <- <-].
  - destruct (is_complete response s); [now intros [= <- <-]|].
    unfold bind.
    destruct (Connection_fetch_next hydrated s) as [o1 s1] eqn:H1.
    destruct (fetch_next_serves _ _ _ _ Hq H1) as [Hq1 Hother].
    destruct o1 as [[]|e|]; try (intros [= <- <-]; exact Hother).
    intros H r' Hne. rewrite (IH _ Hq1 H r' Hne). now apply Hother.
Qed.

Lemma Session_run_other_results (statement : Statement) (p : option Parameters)
    (s : State) o s' (r' : nat) (R : Result) :
  responses (connection s) = [] ->
  result_heap s !! r' = Some R ->
  Session_run hydrated statement p s = (o, s') ->
  result_heap s' !! r' = Some R.
Proof.
  intros Hq HR. rewrite Session_run_unfold.
  destruct (statement_text statement) as [t|e|];
    try (intros [= <- <-]; exact HR).
  assert (Hprep : result_heap (flushed (prepared t (default [] p) s)) !! r'
                  = Some R).
  { simpl. now apply lookup_app_l_Some. }
  destruct (released (connection s)); [intros [= <- <-]; exact Hprep|].
  unfold fetch_until_complete.
  match goal with |- context [fetch_loop hydrated ?f ?r ?s1] =>
    destruct (fetch_loop hydrated f r s1) as [o1 s2] eqn:Hloop end.
  assert (Hne : r' <> length (result_heap s)).
  { apply lookup_lt_Some in HR. lia. }
  assert (Hqs : queue_serves (length (result_heap s))
                  (flushed (prepared t (default [] p) s))).
  { unfold queue_serves. simpl. rewrite Hq. simpl.
    repeat constructor.
    - eexists. split; [apply list_lookup_middle; reflexivity|].
      repeat split; simpl; intros r [= <-]; reflexivity.
    - eexists. split; [apply lookup_second|].
      repeat split; simpl; intros r [= <-]; reflexivity. }
  pose proof (fetch_loop_serves _ _ _ _ _ _ Hqs Hloop r' Hne) as Hsame.
  rewrite Hprep in Hsame.
  destruct o1 as [[]|e|]; intros [= <- <-]; exact Hsame.
Qed.

(** X14: on a connection with no response pending, a call of [Session.run]
    leaves the results of earlier calls as they are, whatever the server
    answers: the records it receives go to its own result only. *)
Theorem Session_run_keeps_results (statement : Statement)
    (p : option Parameters) (s : State) (r' : nat) (R : Result) :
  responses (connection s) = [] ->
  result_heap s !! r' = Some R ->
  result_heap (snd (Session_run hydrated statement p s)) !! r' = Some R.
Proof.
  intros Hq HR.
  destruct (Session_run hydrated statement p s) as [o s'] eqn:H.
  simpl. eapply Session_run_other_results; eauto.
Qed.

(** ** One call after another *)

Lemma Session_run_answered (statement : Statement) (p : option Parameters)
    (t : Text) (s : State) (header footer : Metadata) (ks : list string)
    (rows : list (list Value)) (rest : list ServerMessage) :
  statement_text statement = Returns t ->
  released (connection s) = false ->
  responses (connection s) = [] ->
  md_fields header = Some ks ->
  incoming (connection s)
    = SUCCESS header :: map RECORD rows ++ SUCCESS footer :: rest ->
  exists s',
    Session_run hydrated statement p s = (Returns (length (result_heap s)), s')
    /\ incoming (connection s') = rest
    /\ responses (connection s') = []
    /\ released (connection s') = false
    /\ outgoing (connection s') = []
    /\ sent (connection s')
       = sent (connection s) ++ outgoing (connection s)
         ++ [RUN t (default [] p); PULL_ALL]
    /\ length (result_heap s') = S (length (result_heap s))
    /\ result_heap s' !! length (result_heap s)
       = Some (mkResult (Some ks) (map (record_of hydrated (Some ks)) rows)).
Proof.
  intros Ht Hrel Hq Hks Hinc.
  destruct (Session_run hydrated statement p s) as [o s'] eqn:Hrun.
  pose proof (Session_run_effect _ _ _ _ _ _ Hrun) as (_ & _ & Hrel' & _).
  destruct (Session_run_trace _ _ _ _ _ _ _ Ht Hrun) as [_ Hs].
  destruct (Hs Hrel) as [Hsent Hout].
  revert Hrun. rewrite Session_run_unfold, Ht, Hrel.
  unfold fetch_until_complete.
  destruct (Session_run_header hydrated t (default [] p) s header ks _
              Hrel Hq Hinc Hks)
    as (s2 & Hstep & Hrel2 & Hinc2 & Hq2 & HR2 & Hres2).
  pose proof (fetch_next_frame _ _ _ _ Hstep) as Hfr2.
  cbn [flushed prepared with_connection connection incoming].
  rewrite Hinc, fetch_loop_S.
  unfold is_complete at 1.
  replace (response_heap (flushed (prepared t (default [] p) s))
             !! S (length (response_heap s)))
    with (Some (mkResponse false (RH_Result_on_record (length (result_heap s)))
               (MH_Result_on_footer (length (result_heap s)))
               (MH_Result_on_failure (length (result_heap s))))).
  2:{ simpl. symmetry. apply lookup_second. }
  cbn [complete]. unfold bind at 1. rewrite Hstep.
  match goal with |- context [fetch_loop hydrated ?f _ s2] =>
    destruct (fetch_loop_stream hydrated rows footer rest _ _ _ _ _ f s2 []
                Hrel2 Hinc2 Hq2 HR2 Hres2)
      as (s3 & Hloop & Hinc3 & Hres3 & _ & Hq3) end.
  { simpl. rewrite length_app, length_map. simpl. lia. }
  pose proof (fetch_loop_frame _ _ _ _ _ _ Hloop) as Hfr3.
  rewrite Hloop. intros [= <- <-]. eexists. split; [reflexivity|]. simpl.
  split; [exact Hinc3|]. split; [exact Hq3|].
  split; [now rewrite (fr_released _ _ Hfr3)|].
  split; [exact Hout|]. split; [exact Hsent|]. split; [|exact Hres3].
  rewrite (fr_results _ _ Hfr3), (fr_results _ _ Hfr2). simpl.
  rewrite length_app. simpl. lia.
Qed.

(** X15: a call of [Session.run] that the server answers in full leaves the
    connection as ready as it found it: open, nothing in the buffer, no
    response pending, and exactly its own answer taken off the link. *)
Theorem Session_run_leaves_connection_ready (statement : Statement)
    (p : option Parameters) (t : Text) (s : State) (header footer : Metadata)
    (ks : list string) (rows : list (list Value)) (rest : list ServerMessage) :
  statement_text statement = Returns t ->
  released (connection s) = false ->
  responses (connection s) = [] ->
  md_fields header = Some ks ->
  incoming (connection s)
    = SUCCESS header :: map RECORD rows ++ SUCCESS footer :: rest ->
  exists r s',
    Session_run hydrated statement p s = (Returns r, s')
    /\ incoming (connection s') = rest
    /\ responses (connection s') = []
    /\ released (connection s') = false
    /\ outgoing (connection s') = [].
Proof.
  intros Ht Hrel Hq Hks Hinc.
  destruct (Session_run_answered statement p t s header footer ks rows rest
              Ht Hrel Hq Hks Hinc) as (s' & H & H1 & H2 & H3 & H4 & _).
  eauto 8.
Qed.

(** X16: two statements run one after the other on the same session get the
    records of their own answers: the second call returns a new result
    and leaves the result of the first as it was. *)
Theorem Session_run_twice (statement1 statement2 : Statement)
    (p1 p2 : option Parameters) (t1 t2 : Text) (s : State)
    (header1 footer1 header2 footer2 : Metadata) (ks1 ks2 : list string)
    (rows1 rows2 : list (list Value)) (rest : list ServerMessage) :
  statement_text statement1 = Returns t1 ->
  statement_text statement2 = Returns t2 ->
  released (connection s) = false ->
  responses (connection s) = [] ->
  md_fields header1 = Some ks1 ->
  md_fields header2 = Some ks2 ->
  incoming (connection s)
    = SUCCESS header1 :: map RECORD rows1 ++ SUCCESS footer1
      :: SUCCESS header2 :: map RECORD rows2 ++ SUCCESS footer2 :: rest ->
  exists r1 r2 s1 s2,
    Session_run hydrated statement1 p1 s = (Returns r1, s1)
    /\ Session_run hydrated statement2 p2 s1 = (Returns r2, s2)
    /\ r1 <> r2
    /\ result_heap s2 !! r1
       = Some (mkResult (Some ks1) (map (record_of hydrated (Some ks1)) rows1))
    /\ result_heap s2 !! r2
       = Some (mkResult (Some ks2) (map (record_of hydrated (Some ks2)) rows2))
    /\ incoming (connection s2) = rest.
Proof.
  intros Ht1 Ht2 Hrel Hq Hks1 Hks2 Hinc.
  destruct (Session_run_answered statement1 p1 t1 s header1 footer1 ks1 rows1 _
              Ht1 Hrel Hq Hks1 Hinc)
    as (s1 & Hrun1 & Hinc1 & Hq1 & Hrel1 & _ & _ & Hlen1 & Hres1).
  destruct (Session_run_answered statement2 p2 t2 s1 header2 footer2 ks2 rows2
              rest Ht2 Hrel1 Hq1 Hks2 Hinc1)
    as (s2 & Hrun2 & Hinc2 & _ & _ & _ & _ & _ & Hres2).
  exists (length (result_heap s)), (length (result_heap s1)), s1, s2.
  split; [exact Hrun1|]. split; [exact Hrun2|]. split; [lia|].
  split; [|split; [exact Hres2 | exact Hinc2]].
  eapply Session_run_other_results; eauto.
Qed.

(** ** Bench tests *)

Lemma fetch_next_bench (s : State) o s' :
  Connection_fetch_next hydrated s = (o, s') ->
  bench_tests s' = bench_tests s.
Proof.
  unfold Connection_fetch_next.
  cbn [connection with_connection log_event released incoming responses].
  destruct (released (connection s)); [now intros [= <- <-]|].
  destruct (incoming (connection s)) as [|m rest]; [now intros [= <- <-]|].
  destruct (responses (connection s)) as [|r q]; [now intros [= <- <-]|].
  cbn [response_heap with_connection].
  destruct (response_heap s !! r) as [R|]; [|now intros [= <- <-]].
  unfold bind at 1.
  match goal with |- context [handle hydrated R m ?s1] =>
    destruct (handle hydrated R m s1) as [o1 s2] eqn:Hh end.
  assert (Hb : bench_tests s2 = bench_tests s).
  { destruct m as [md|md| |values]; simpl in Hh.
    - destruct (on_success R); simpl in Hh;
        cbv [Result_on_header Result_on_footer Result_on_failure ret raise
             modify] in Hh;
        try destruct (md_fields md); cbv beta in Hh; injection Hh as _ <-;
        reflexivity.
    - destruct (on_failure R); simpl in Hh;
        cbv [Result_on_header Result_on_footer Result_on_failure ret raise
             modify] in Hh;
        try destruct (md_fields md); cbv beta in Hh; injection Hh as _ <-;
        reflexivity.
    - cbv [ret] in Hh. now injection Hh as _ <-.
    - destruct (on_record R); simpl in Hh;
        cbv [Result_on_record ret modify] in Hh; injection Hh as _ <-;
        reflexivity. }
  destruct o1 as [[]|e|]; try (intros [= <- <-]; exact Hb).
  destruct (is_summary m); [|intros [= <- <-]; exact Hb].
  unfold bind, set_complete, pop_response, modify. intros [= <- <-]. exact Hb.
Qed.

Lemma fetch_loop_bench (fuel response : nat) (s : State) o s' :
  fetch_loop hydrated fuel response s = (o, s') ->
  bench_tests s' = bench_tests s.
Proof.
  revert s. induction fuel as [|fuel IH]; intros s; simpl.
  - destruct (is_complete response s); now intros [= <- <-].
  - destruct (is_complete response s); [now intros [= <- <-]|].
    unfold bind.
    destruct (Connection_fetch_next hydrated s) as [o1 s1] eqn:H1.
    apply fetch_next_bench in H1.
    destruct o1 as [[]|e|]; try (intros [= <- <-]; exact H1).
    intros H. apply IH in H. congruence.
Qed.

(** X17: a call of [Session.run] adds one bench test to the session when it
    returns, and none when it does not: the test is appended after the
    last message of the answer has been handled. *)
Theorem Session_run_bench_tests (statement : Statement)
    (p : option Parameters) (s : State) :
  bench_tests (snd (Session_run hydrated statement p s))
  = match fst (Session_run hydrated statement p s) with
    | Returns _ => S (bench_tests s)
    | _ => bench_tests s
    end.
Proof.
  rewrite Session_run_unfold.
  destruct (statement_text statement) as [t|e|]; try reflexivity.
  destruct (released (connection s)); [reflexivity|].
  unfold fetch_until_complete.
  match goal with |- context [fetch_loop hydrated ?f ?r ?s1] =>
    destruct (fetch_loop hydrated f r s1) as [o1 s2] eqn:Hloop end.
  apply fetch_loop_bench in Hloop. simpl in Hloop.
  destruct o1 as [[]|e|]; simpl; congruence.
Qed.

(** ** A header without field names *)

(** X18: when the server's answer to [RUN] is a [SUCCESS] whose metadata has
    no ["fields"] entry, [Session.run] raises [KeyError] from
    [Result.on_header]: nothing after that message is read, and the
    result it was building has no keys and no records. *)
Theorem Session_run_header_without_fields (statement : Statement)
    (p : option Parameters) (t : Text) (s : State) (header : Metadata)
    (more : list ServerMessage) :
  statement_text statement = Returns t ->
  released (connection s) = false ->
  responses (connection s) = [] ->
  incoming (connection s) = SUCCESS header :: more ->
  md_fields header = None ->
  exists s',
    Session_run hydrated statement p s = (Raises (KeyError "fields"), s')
    /\ incoming (connection s') = more
    /\ result_heap s' = result_heap s ++ [mkResult None []].
Proof.
  intros Ht Hrel Hq Hinc Hks.
  rewrite Session_run_unfold, Ht, Hrel. unfold fetch_until_complete.
  cbn [flushed prepared with_connection connection incoming].
  rewrite Hinc, fetch_loop_S.
  unfold is_complete at 1.
  replace (response_heap (flushed (prepared t (default [] p) s))
             !! S (length (response_heap s)))
    with (Some (mkResponse false (RH_Result_on_record (length (result_heap s)))
               (MH_Result_on_footer (length (result_heap s)))
               (MH_Result_on_failure (length (result_heap s))))).
  2:{ simpl. symmetry. apply lookup_second. }
  cbn [complete]. unfold bind at 1.
  rewrite (fetch_next_dispatch hydrated (flushed (prepared t (default [] p) s))
             (SUCCESS header) more
             (length (response_heap s)) [S (length (response_heap s))]
             (mkResponse false RH_default
                (MH_Result_on_header (length (result_heap s)))
                (MH_Result_on_failure (length (result_heap s))))).
  - cbv [handle on_success call_metadata_handler Result_on_header is_summary
         bind ret raise].
    rewrite Hks. eexists. split; [reflexivity|]. simpl. auto.
  - exact Hrel.
  - simpl. exact Hinc.
  - simpl. rewrite Hq. reflexivity.
  - simpl. apply list_lookup_middle. reflexivity.
Qed.
End Further.

(** * Examples: witnesses and counterexamples *)

(** The constructor on [x://localhost:7687] and on
    [bolt://localhost:7687]. *)
Lemma Driver_checks_scheme_witness :
  GraphDatabase_driver example_urlparse "x://localhost:7687" [] []
  = (Raises (ValueError "Unsupported URL scheme: x"), [])
  /\ GraphDatabase_driver example_urlparse "bolt://localhost:7687" [] []
     = (Returns (mkDriver "bolt://localhost:7687" (Some "localhost")
                          (Some 7687%Z) []), []).
Proof.
  split.
  - apply (proj1 (proj2 (Driver_checks_scheme example_urlparse
                           "x://localhost:7687" [] []))
             (mkParseResult "x" (Some "localhost") (Returns (Some 7687%Z))));
      [reflexivity | discriminate].
  - apply (proj1 (proj2 (proj2 (Driver_checks_scheme example_urlparse
                                  "bolt://localhost:7687" [] [])))
             (mkParseResult "bolt" (Some "localhost") (Returns (Some 7687%Z))));
      reflexivity.
Defined.

(** C6 as stated fails for a ["bolt"] URL whose port is not a number:
    the scheme is accepted, reading the port raises, and no driver is
    constructed. *)
Lemma Driver_bad_port_counterexample :
  obind (example_urlparse "bolt://localhost:abc")
        (fun parsed => Returns (scheme parsed)) = Returns "bolt"
  /\ GraphDatabase_driver example_urlparse "bolt://localhost:abc" [] []
     = (Raises (ValueError
                  "Port could not be cast to integer value as 'abc'"), []).
Proof. vm_compute. split; reflexivity. Qed.

(** A session with a transaction open: a second [new_transaction] is
    refused. *)
Lemma Session_single_transaction_witness :
  reachable plain_values (begun [])
  /\ Session_new_transaction plain_values (begun [])
     = (Raises AssertionError, begun []).
Proof.
  assert (Hr : reachable plain_values (begun [])).
  { apply reachable_step; [apply reachable_init | discriminate]. }
  split; [exact Hr|].
  destruct (Session_single_transaction plain_values (begun []) Hr) as (_ & _ & H).
  apply (H 0 (mkTransaction false false)); reflexivity.
Defined.

(** A body that runs a statement and sets [success]: [__exit__] sends
    the one [COMMIT].  A body that runs a statement and calls [commit]:
    that call sends the one [COMMIT], and [__exit__] raises. *)
Lemma with_statement_ends_transaction_witness :
  let s := begun [SUCCESS (example_header ["x"]); RECORD [VInt 1];
                  SUCCESS example_footer;
                  SUCCESS (example_header []); SUCCESS example_footer] in
  (exists o s' delta,
     with_statement plain_values 0 [Run RETURN_1 None; SetSuccess true] s
     = (o, s')
     /\ sent (connection s') = sent (connection s) ++ delta
     /\ List.filter control delta = [RUN (text_of_string "COMMIT") []])
  /\ (exists s' delta,
        with_statement plain_values 0 [Run RETURN_1 None; Commit] s
        = (Raises AssertionError, s')
        /\ sent (connection s') = sent (connection s) ++ delta
        /\ List.filter control delta = [RUN (text_of_string "COMMIT") []]).
Proof.
  intros s.
  destruct (with_statement_ends_transaction plain_values 0
              (mkTransaction false false) s eq_refl eq_refl eq_refl eq_refl)
    as [H _].
  split.
  - set (body := [Run RETURN_1 None; SetSuccess true]).
    assert (Hend : body_ending plain_values 0 body s = LeftOpen)
      by (vm_compute; reflexivity).
    assert (Hsucc : get_success 0 (snd (exec_body plain_values 0 body s)) = true)
      by (vm_compute; reflexivity).
    assert (Hnb : fst (exec_body plain_values 0 body s) <> Blocks)
      by (vm_compute; discriminate).
    destruct (H body _ _ eq_refl (surjective_pairing _) Hnb)
      as (o & s' & delta & Hw & Hs & Hf & _).
    { rewrite Hend. discriminate. }
    unfold deciding_success in Hf. rewrite Hend, Hsucc in Hf.
    exists o, s', delta. auto.
  - set (body := [Run RETURN_1 None; Commit]).
    assert (Hend : body_ending plain_values 0 body s = ClosedWith true)
      by (vm_compute; reflexivity).
    assert (Hnb : fst (exec_body plain_values 0 body s) <> Blocks)
      by (vm_compute; discriminate).
    destruct (H body _ _ eq_refl (surjective_pairing _) Hnb)
      as (o & s' & delta & Hw & Hs & Hf & Ha).
    { rewrite Hend. discriminate. }
    unfold deciding_success in Hf. rewrite Hend in Hf.
    rewrite (Ha true Hend) in Hw.
    exists s', delta. auto.
Defined.

(** C3 as stated fails when [commit] is called in the block and the
    server answers [COMMIT] with a failure: [commit] raises, the
    transaction is still open, and [__exit__] sends [COMMIT] again.  It
    also fails when the body runs [COMMIT] as a statement: [__exit__]
    then sends [ROLLBACK] after it. *)
Lemma with_statement_commit_counterexample :
  let s := begun [FAILURE example_failure; IGNORED; IGNORED; IGNORED; IGNORED] in
  let r := with_statement plain_values 0 [Commit] s in
  let s2 := begun [SUCCESS (example_header []); SUCCESS example_footer;
                   SUCCESS (example_header []); SUCCESS example_footer] in
  let r2 := with_statement plain_values 0
              [Run (StatementText (text_of_string "COMMIT")) None] s2 in
  (fst r = Raises (CypherError example_failure)
   /\ sent (connection (snd r))
      = sent (connection s)
        ++ [RUN (text_of_string "COMMIT") []; PULL_ALL;
            RUN (text_of_string "COMMIT") []; PULL_ALL])
  /\ (fst r2 = Returns tt
      /\ sent (connection (snd r2))
         = sent (connection s2)
           ++ [RUN (text_of_string "COMMIT") []; PULL_ALL;
               RUN (text_of_string "ROLLBACK") []; PULL_ALL]).
Proof. vm_compute. repeat split. Qed.

(** A statement with two records. *)
Lemma Session_run_is_eager_witness :
  let s := Session___init__ (fresh_connection
             [SUCCESS (example_header ["x"]); RECORD [VInt 1]; RECORD [VInt 2];
              SUCCESS example_footer]) in
  exists s',
    Session_run plain_values RETURN_1 None s = (Returns 0, s')
    /\ incoming (connection s') = []
    /\ result_heap s' !! 0
       = Some (mkResult (Some ["x"])
                 [mkRecord (Some ["x"]) [VInt 1]; mkRecord (Some ["x"]) [VInt 2]]).
Proof.
  intros s.
  exact (proj1 (Session_run_is_eager plain_values RETURN_1 None
                  (text_of_string "RETURN 1") s (example_header ["x"])
                  example_footer ["x"] [[VInt 1]; [VInt 2]] []
                  eq_refl eq_refl eq_refl eq_refl) eq_refl).
Defined.

(** C4 as stated fails: when [run] returns, both records are in the
    result and the link is drained; with the same records on the link but
    no summary yet, [run] does not return. *)
Lemma Session_run_lazy_counterexample :
  let complete_link := [SUCCESS (example_header ["x"]); RECORD [VInt 1];
                        RECORD [VInt 2]; SUCCESS example_footer] in
  let partial_link := [SUCCESS (example_header ["x"]); RECORD [VInt 1];
                       RECORD [VInt 2]] in
  let r := Session_run plain_values RETURN_1 None
             (Session___init__ (fresh_connection complete_link)) in
  fst r = Returns 0
  /\ incoming (connection (snd r)) = []
  /\ (records <$> result_heap (snd r) !! 0)
     = Some [mkRecord (Some ["x"]) [VInt 1]; mkRecord (Some ["x"]) [VInt 2]]
  /\ fst (Session_run plain_values RETURN_1 None
            (Session___init__ (fresh_connection partial_link))) = Blocks.
Proof. vm_compute. repeat split. Qed.

(** A failure in answer to [RUN], and one in the middle of the
    records. *)
Lemma Session_run_raises_failure_witness :
  let s1 := Session___init__ (fresh_connection
              [FAILURE example_failure; IGNORED]) in
  let s2 := Session___init__ (fresh_connection
              [SUCCESS (example_header ["x"]); RECORD [VInt 1];
               FAILURE example_failure]) in
  (exists s',
     Session_run plain_values RETURN_1 None s1
     = (Raises (CypherError example_failure), s')
     /\ incoming (connection s') = [IGNORED])
  /\ (exists s',
        Session_run plain_values RETURN_1 None s2
        = (Raises (CypherError example_failure), s')
        /\ incoming (connection s') = []).
Proof.
  intros s1 s2. split.
  - apply (proj1 (Session_run_raises_failure plain_values RETURN_1 None s1
                    (reachable_init plain_values _))
             (text_of_string "RETURN 1")); reflexivity.
  - apply (proj1 (proj2 (Session_run_raises_failure plain_values RETURN_1 None
                           s2 (reachable_init plain_values _)))
             (text_of_string "RETURN 1") (example_header ["x"]) ["x"]
             [[VInt 1]]); reflexivity.
Defined.

(** One statement on a new session. *)
Lemma Session_run_pipelines_witness :
  let s := Session___init__ (fresh_connection
             [SUCCESS (example_header ["x"]); RECORD [VInt 1];
              SUCCESS example_footer]) in
  let r := Session_run plain_values RETURN_1 None s in
  (exists n,
     events (connection (snd r))
     = [EvAppend (RUN (text_of_string "RETURN 1") []); EvAppend PULL_ALL; EvSend]
       ++ repeat EvFetch n)
  /\ sent (connection (snd r)) = [RUN (text_of_string "RETURN 1") []; PULL_ALL].
Proof.
  intros s r.
  destruct (Session_run_pipelines plain_values RETURN_1 None
              (text_of_string "RETURN 1") s (fst r) (snd r) eq_refl
              (surjective_pairing r)) as (He & _ & Hs).
  split; [exact He|]. exact (proj1 (Hs eq_refl)).
Defined.

(** C5 as stated fails: with a transaction open, [Session.close] releases
    the connection, and [BEGIN] is all that was ever sent; the transaction
    is still open. *)
Lemma Session_close_counterexample :
  let s := begun [] in
  let s' := snd (Session_close s) in
  transaction s = Some 0
  /\ get_closed 0 s = false
  /\ released (connection s') = true
  /\ outgoing (connection s') = []
  /\ sent (connection s') = [RUN (text_of_string "BEGIN") []; PULL_ALL]
  /\ get_closed 0 s' = false.
Proof. vm_compute. repeat split. Qed.

(** A transaction rolled back by [close]. *)
Lemma Transaction_close_resets_witness :
  let s := begun [SUCCESS (example_header []); SUCCESS example_footer] in
  let s' := snd (Transaction_close plain_values 0 s) in
  get_closed 0 s' = true
  /\ transaction s' = None
  /\ sent (connection s')
     = sent (connection s) ++ [RUN (text_of_string "ROLLBACK") []; PULL_ALL]
  /\ Transaction_run plain_values 0 RETURN_1 None s' = (Raises AssertionError, s').
Proof.
  intros s s'.
  assert (Hl : transaction_heap s !! 0 = Some (mkTransaction false false))
    by (vm_compute; reflexivity).
  assert (Hclose : Transaction_close plain_values 0 s = (Returns tt, s'))
    by (vm_compute; reflexivity).
  destruct (Transaction_close_resets plain_values 0 (mkTransaction false false)
              s s' Hl eq_refl Hclose) as (H1 & H2 & H3 & H4 & _).
  split; [exact H1|]. split; [exact H2|].
  split; [apply H3; vm_compute; reflexivity|].
  apply H4.
Defined.

(** C10 as stated fails when the server answers [ROLLBACK] with a
    failure: [close] raises, the transaction is not closed and stays in
    the slot. *)
Lemma Transaction_close_failure_counterexample :
  let s := begun [FAILURE example_failure; IGNORED] in
  let r := Transaction_close plain_values 0 s in
  get_closed 0 s = false
  /\ fst r = Raises (CypherError example_failure)
  /\ get_closed 0 (snd r) = false
  /\ transaction (snd r) = Some 0.
Proof. vm_compute. repeat split. Qed.

(** A statement with a two-byte character, as UTF-8 bytes and as text. *)
Lemma Session_run_decodes_statement_witness :
  let s := Session___init__ (fresh_connection []) in
  let b := [0x52; 0x45; 0x54; 0x55; 0x52; 0x4E; 0x20; 0x27; 0xC3; 0xA9; 0x27]%Z in
  let t := [0x52; 0x45; 0x54; 0x55; 0x52; 0x4E; 0x20; 0x27; 0xE9; 0x27]%Z in
  utf8_decode b = Some t
  /\ Session_run plain_values (StatementBytes b) None s
     = Session_run plain_values (StatementText t) None s.
Proof.
  intros s b t. split; [reflexivity|].
  exact (proj1 (Session_run_decodes_statement plain_values None s) b t eq_refl).
Defined.

(** ** Further properties *)

(** A record with the one field [x], asked for [y]. *)
Lemma Record_missing_name_witness :
  let record := mkRecord (Some ["x"]) [VInt 1] in
  Record___getitem__ record (ItemStr "y") = Raises (AttributeError "y")
  /\ Record_getattr record "y" = Raises (AttributeError "y").
Proof.
  intros record. apply Record_missing_name; [|reflexivity].
  intros H. apply list_elem_of_singleton in H. discriminate.
Defined.

(** Index 1 of a record with one field. *)
Lemma Record_index_out_of_range_witness :
  let record := mkRecord (Some ["x"]) [VInt 1] in
  Record___getitem__ record (ItemInt 1) = Raises IndexError
  /\ Record___getitem__ record ItemOther = Raises TypeError.
Proof.
  intros record. apply (Record_index_out_of_range ["x"] [VInt 1] 1).
  simpl. lia.
Defined.

(** [record[-1]] is [record[1]] on a record with two fields. *)
Lemma Record_negative_index_witness :
  let record := mkRecord (Some ["x"; "y"]) [VInt 1; VInt 2] in
  Record___getitem__ record (ItemInt (-1))
  = Record___getitem__ record (ItemInt 1).
Proof.
  intros record.
  apply (Record_negative_index ["x"; "y"] [VInt 1; VInt 2] 1). simpl. lia.
Defined.

(** The second of two fields. *)
Lemma Record_index_in_range_witness :
  exists a,
    Record___getitem__ (mkRecord (Some ["x"; "y"]) [VInt 1; VInt 2]) (ItemInt 1)
    = Returns a.
Proof.
  apply (Record_index_in_range ["x"; "y"] [VInt 1; VInt 2] 2 1);
    [reflexivity | reflexivity | lia].
Defined.

(** Position 1 of a record whose two fields are both named [x]: the
    value returned is the one at position 0. *)
Lemma Record_lookup_first_occurrence_witness :
  exists k j,
    list_index k ["x"; "x"] = Some j /\ ["x"; "x"] !! j = Some k
    /\ [VInt 1; VInt 2] !! j = Some (VInt 1).
Proof.
  apply (Record_lookup_first_occurrence ["x"; "x"] [VInt 1; VInt 2]
           (ItemInt 1) (VInt 1)).
  reflexivity.
Defined.

(** A record whose two fields are both named [x], printed. *)
Lemma Record_repr_by_position_witness :
  let repr := fun v => match v with
                       | VInt 1 => "1"
                       | VInt 2 => "2"
                       | _ => "?"
                       end in
  Record___repr__ repr (mkRecord (Some ["x"; "x"]) [VInt 1; VInt 2])
  = Returns "<Record x=1 x=2>"
  /\ Record___repr__ repr (mkRecord (Some ["x"; "y"]) [VInt 1])
     = Raises IndexError.
Proof.
  intros repr. split.
  - apply (proj1 (Record_repr_by_position repr ["x"; "x"] [VInt 1; VInt 2])).
    simpl. lia.
  - apply (proj2 (Record_repr_by_position repr ["x"; "y"] [VInt 1])).
    simpl. lia.
Defined.

(** A transaction closed by a rollback, then used in a [with] block. *)
Lemma closed_transaction_is_silent_witness :
  let s := snd (Transaction_rollback plain_values 0
                  (begun [SUCCESS (example_header []); SUCCESS example_footer])) in
  get_closed 0 s = true
  /\ exists s',
       with_statement plain_values 0 [Run RETURN_1 None; SetSuccess true] s
       = (Raises AssertionError, s')
       /\ connection s' = connection s /\ transaction s' = transaction s
       /\ get_closed 0 s' = true.
Proof.
  intros s.
  assert (Hc : get_closed 0 s = true) by (vm_compute; reflexivity).
  split; [exact Hc|].
  apply (proj2 (closed_transaction_is_silent plain_values 0 s Hc)).
Defined.

(** A rollback that the server accepts. *)
Lemma Transaction_rollback_effect_witness :
  let s := begun [SUCCESS (example_header []); SUCCESS example_footer] in
  let r := Transaction_rollback plain_values 0 s in
  get_success 0 (snd r) = false
  /\ sent (connection (snd r))
     = sent (connection s) ++ outgoing (connection s)
       ++ [RUN (text_of_string "ROLLBACK") []; PULL_ALL]
  /\ (fst r = Returns tt ->
      get_closed 0 (snd r) = true /\ transaction (snd r) = None)
  /\ (fst r <> Returns tt ->
      get_closed 0 (snd r) = false /\ transaction (snd r) = transaction s).
Proof.
  intros s r.
  assert (Hl : transaction_heap s !! 0 = Some (mkTransaction false false))
    by (vm_compute; reflexivity).
  assert (Hrel : released (connection s) = false) by (vm_compute; reflexivity).
  exact (Transaction_rollback_effect plain_values 0 (mkTransaction false false)
           s (fst r) (snd r) Hl eq_refl Hrel (surjective_pairing r)).
Defined.

(** A commit that the server refuses. *)
Lemma Transaction_commit_effect_witness :
  let s := begun [FAILURE example_failure; IGNORED] in
  let r := Transaction_commit plain_values 0 s in
  get_success 0 (snd r) = true
  /\ sent (connection (snd r))
     = sent (connection s) ++ outgoing (connection s)
       ++ [RUN (text_of_string "COMMIT") []; PULL_ALL]
  /\ (fst r = Returns tt ->
      get_closed 0 (snd r) = true /\ transaction (snd r) = None)
  /\ (fst r <> Returns tt ->
      get_closed 0 (snd r) = false /\ transaction (snd r) = transaction s).
Proof.
  intros s r.
  assert (Hl : transaction_heap s !! 0 = Some (mkTransaction false false))
    by (vm_compute; reflexivity).
  assert (Hrel : released (connection s) = false) by (vm_compute; reflexivity).
  exact (Transaction_commit_effect plain_values 0 (mkTransaction false false)
           s (fst r) (snd r) Hl eq_refl Hrel (surjective_pairing r)).
Defined.

(** The first transaction of a new session. *)
Lemma Session_new_transaction_begins_witness :
  let s := Session___init__ (fresh_connection
             [SUCCESS (example_header []); SUCCESS example_footer]) in
  let r := Session_new_transaction plain_values s in
  sent (connection (snd r)) = [RUN (text_of_string "BEGIN") []; PULL_ALL]
  /\ outgoing (connection (snd r)) = []
  /\ match fst r with
     | Returns tx =>
         transaction (snd r) = Some tx
         /\ transaction_heap (snd r) !! tx = Some (mkTransaction false false)
         /\ length (transaction_heap (snd r)) = S (length (transaction_heap s))
     | _ =>
         transaction (snd r) = None
         /\ transaction_heap (snd r) = transaction_heap s
     end.
Proof.
  intros s r.
  exact (Session_new_transaction_begins plain_values s (fst r) (snd r)
           eq_refl eq_refl (surjective_pairing r)).
Defined.

(** [success] set to true, then to false: the block ends in a
    [ROLLBACK]. *)
Lemma with_statement_last_success_witness :
  let s := begun [SUCCESS (example_header []); SUCCESS example_footer] in
  exists o s' delta,
    with_statement plain_values 0 ([SetSuccess true] ++ [SetSuccess false]) s
    = (o, s')
    /\ sent (connection s') = sent (connection s) ++ delta
    /\ List.filter control delta = [RUN (end_statement false) []].
Proof.
  intros s.
  assert (Hl : transaction_heap s !! 0 = Some (mkTransaction false false))
    by (vm_compute; reflexivity).
  assert (Hrel : released (connection s) = false) by (vm_compute; reflexivity).
  assert (Hout : outgoing (connection s) = []) by (vm_compute; reflexivity).
  assert (Hbody : exec_body plain_values 0 [SetSuccess true] s
                  = (Returns tt,
                     snd (exec_body plain_values 0 [SetSuccess true] s)))
    by (vm_compute; reflexivity).
  exact (with_statement_last_success plain_values 0 (mkTransaction false false)
           s _ [SetSuccess true] false Hl eq_refl Hrel Hout eq_refl eq_refl
           eq_refl Hbody).
Defined.

(** A block that runs one statement and says nothing about [success]. *)
Lemma new_transaction_rolls_back_by_default_witness :
  let s := Session___init__ (fresh_connection
             [SUCCESS (example_header []); SUCCESS example_footer;
              SUCCESS (example_header ["x"]); RECORD [VInt 1];
              SUCCESS example_footer;
              SUCCESS (example_header []); SUCCESS example_footer]) in
  let s1 := snd (Session_new_transaction plain_values s) in
  exists o s' delta,
    with_statement plain_values 0 [Run RETURN_1 None] s1 = (o, s')
    /\ sent (connection s') = sent (connection s1) ++ delta
    /\ List.filter control delta = [RUN (text_of_string "ROLLBACK") []].
Proof.
  intros s s1.
  assert (Hnew : Session_new_transaction plain_values s = (Returns 0, s1))
    by (vm_compute; reflexivity).
  assert (Hnb : fst (exec_body plain_values 0 [Run RETURN_1 None] s1) <> Blocks)
    by (vm_compute; discriminate).
  exact (new_transaction_rolls_back_by_default plain_values s s1 _ 0
           [Run RETURN_1 None] _ eq_refl Hnew eq_refl eq_refl eq_refl
           (surjective_pairing _) Hnb).
Defined.

(** The result of a first statement, after a second one has run. *)
Lemma Session_run_keeps_results_witness :
  let s := snd (Session_run plain_values RETURN_1 None
                  (Session___init__ (fresh_connection
                     [SUCCESS (example_header ["x"]); RECORD [VInt 1];
                      SUCCESS example_footer;
                      SUCCESS (example_header ["y"]); RECORD [VInt 2];
                      SUCCESS example_footer]))) in
  result_heap (snd (Session_run plain_values RETURN_1 None s)) !! 0
  = Some (mkResult (Some ["x"]) [mkRecord (Some ["x"]) [VInt 1]]).
Proof.
  intros s.
  assert (Hq : responses (connection s) = []) by (vm_compute; reflexivity).
  assert (HR : result_heap s !! 0
               = Some (mkResult (Some ["x"]) [mkRecord (Some ["x"]) [VInt 1]]))
    by (vm_compute; reflexivity).
  exact (Session_run_keeps_results plain_values RETURN_1 None s 0 _ Hq HR).
Defined.

(** One statement with one record, and a message left on the link. *)
Lemma Session_run_leaves_connection_ready_witness :
  let s := Session___init__ (fresh_connection
             [SUCCESS (example_header ["x"]); RECORD [VInt 1];
              SUCCESS example_footer; IGNORED]) in
  exists r s',
    Session_run plain_values RETURN_1 None s = (Returns r, s')
    /\ incoming (connection s') = [IGNORED]
    /\ responses (connection s') = []
    /\ released (connection s') = false
    /\ outgoing (connection s') = [].
Proof.
  intros s.
  exact (Session_run_leaves_connection_ready plain_values RETURN_1 None
           (text_of_string "RETURN 1") s (example_header ["x"]) example_footer
           ["x"] [[VInt 1]] [IGNORED] eq_refl eq_refl eq_refl eq_refl eq_refl).
Defined.

(** Two statements with one record each. *)
Lemma Session_run_twice_witness :
  let s := Session___init__ (fresh_connection
             [SUCCESS (example_header ["x"]); RECORD [VInt 1];
              SUCCESS example_footer;
              SUCCESS (example_header ["y"]); RECORD [VInt 2];
              SUCCESS example_footer]) in
  exists r1 r2 s1 s2,
    Session_run plain_values RETURN_1 None s = (Returns r1, s1)
    /\ Session_run plain_values RETURN_1 None s1 = (Returns r2, s2)
    /\ r1 <> r2
    /\ result_heap s2 !! r1
       = Some (mkResult (Some ["x"]) [mkRecord (Some ["x"]) [VInt 1]])
    /\ result_heap s2 !! r2
       = Some (mkResult (Some ["y"]) [mkRecord (Some ["y"]) [VInt 2]])
    /\ incoming (connection s2) = [].
Proof.
  intros s.
  exact (Session_run_twice plain_values RETURN_1 RETURN_1 None None
           (text_of_string "RETURN 1") (text_of_string "RETURN 1") s
           (example_header ["x"]) example_footer
           (example_header ["y"]) example_footer ["x"] ["y"]
           [[VInt 1]] [[VInt 2]] []
           eq_refl eq_refl eq_refl eq_refl eq_refl eq_refl eq_refl).
Defined.

(** A [SUCCESS] without field names in answer to [RUN]. *)
Lemma Session_run_header_without_fields_witness :
  let s := Session___init__ (fresh_connection
             [SUCCESS example_footer; SUCCESS example_footer]) in
  exists s',
    Session_run plain_values RETURN_1 None s = (Raises (KeyError "fields"), s')
    /\ incoming (connection s') = [SUCCESS example_footer]
    /\ result_heap s' = result_heap s ++ [mkResult None []].
Proof.
  intros s.
  exact (Session_run_header_without_fields plain_values RETURN_1 None
           (text_of_string "RETURN 1") s example_footer
           [SUCCESS example_footer] eq_refl eq_refl eq_refl eq_refl eq_refl).
Defined.
